(** * export_notebooks.py: the Markdown renderer and the image embedding layer

    A shallow embedding of the renderer classes of [export_notebooks.py]
    (the math lexer mixins, [MdRenderer] with its length-prefixed chunk
    codec, and [EmbedImagesRenderer]) together with the properties the
    specification states about them.

    Modelling conventions.
    - A Python [str] is a [list ascii]; characters are 8-bit code points
      (the Latin-1 range), [len] is [length].
    - A Python [int] is a [Z]; lengths are [nat] and injected where needed.
    - A raised exception is the [Raise] branch of [result]; a [while] loop
      whose progress depends on its data carries fuel, and [None] means
      that the fuel ran out before the loop condition became false.
    - Library code the program calls but does not define (mistune's
      escaping and rule driver, [urlparse], the file system, cairosvg) is
      the [Platform] class. *)

From Stdlib Require Import ZArith NArith List Ascii String Lia.
From Stdlib Require Import DecimalNat DecimalFacts.
From Stdlib Require Strings.Byte.
From stdpp Require Import base option list gmap strings.

(** ** Python values *)

Abbreviation str := (list ascii).

Coercion list_ascii_of_string : string >-> list.

(** The line feed, ['\n'], and the double quote. *)
Definition LF : ascii := ascii_of_nat 10.
Definition DQUOTE : ascii := ascii_of_nat 34.

(** Exceptions, by Python class; the argument tells the raising sites
    apart the way the message text does in Python. *)
Inductive sequence_kind := OfString | OfList.

Inductive exn :=
| IndexError (k : sequence_kind)   (* "<string|list> index out of range" *)
| ValueError_int (literal : str)   (* "invalid literal for int() with base 10" *)
| ValueError_unpack (got : nat)    (* "not enough / too many values to unpack" *)
| ValueError (msg : str)           (* raise ValueError(msg) *)
| OSError (msg : str)              (* raise OSError(msg) *)
| FileNotFoundError (path : str)   (* open() on a missing file *)
| IsADirectoryError (path : str)   (* open() on a directory *)
| ExternalError.                   (* a failure inside cairosvg or PIL *)

Inductive result (A : Type) :=
| Ok (a : A)
| Raise (e : exn).
Arguments Ok {A} a.
Arguments Raise {A} e.

Definition rbind {A B} (r : result A) (k : A → result B) : result B :=
  match r with
  | Ok a => k a
  | Raise e => Raise e
  end.

Notation "'let!' x := r 'in' k" := (rbind r (λ x, k))
  (at level 10, x pattern, r at level 100, k at level 200).

(** ** String primitives *)

Module Py.

(** [s[i]] for a non-negative constant index. *)
Definition getitem (s : str) (i : nat) : result str :=
  match s !! i with
  | Some c => Ok [c]
  | None => Raise (IndexError OfString)
  end.

(** [s.find(c)]: index of the first occurrence, [-1] when there is none. *)
Fixpoint find (c : ascii) (s : str) : Z :=
  match s with
  | [] => -1
  | x :: s' =>
      if Ascii.eqb x c then 0
      else let p := find c s' in if (p <? 0)%Z then -1 else (p + 1)%Z
  end.

(** [s.rfind(c)]: index of the last occurrence, [-1] when there is none. *)
Fixpoint rfind (c : ascii) (s : str) : Z :=
  match s with
  | [] => -1
  | x :: s' =>
      let p := rfind c s' in
      if (0 <=? p)%Z then (p + 1)%Z
      else if Ascii.eqb x c then 0 else -1
  end.

(** A slice bound, clamped as Python does: a negative bound counts from
    the end, and every bound is brought into [0 .. len]. *)
Definition bound (len : nat) (i : Z) : nat :=
  if (i <? 0)%Z then Z.to_nat (Z.max 0 (i + Z.of_nat len))
  else Nat.min (Z.to_nat i) len.

(** [s[a:b]] *)
Definition slice (s : str) (a b : Z) : str :=
  let lo := bound (length s) a in
  let hi := bound (length s) b in
  take (hi - lo) (drop lo s).

(** [s[a:]] *)
Definition slice_from (s : str) (a : Z) : str :=
  drop (bound (length s) a) s.

(** [s[:b]] *)
Definition slice_to (s : str) (b : Z) : str :=
  take (bound (length s) b) s.

(** [s.startswith(p)] *)
Fixpoint startswith (s p : str) : bool :=
  match p, s with
  | [], _ => true
  | c :: p', x :: s' => Ascii.eqb x c && startswith s' p'
  | _ :: _, [] => false
  end.

(** [s.endswith(c)] for a one-character suffix. *)
Definition endswith (s : str) (c : ascii) : bool :=
  match last s with
  | Some x => Ascii.eqb x c
  | None => false
  end.

(** [s.split(c)]: the pieces between the occurrences of [c]. *)
Fixpoint split (c : ascii) (s : str) : list str :=
  match s with
  | [] => [[]]
  | x :: s' =>
      if Ascii.eqb x c then [] :: split c s'
      else match split c s' with
           | piece :: pieces => (x :: piece) :: pieces
           | [] => [[x]]
           end
  end.

(** [s.replace(c, d)] for single characters. *)
Definition replace (c d : ascii) (s : str) : str :=
  map (λ x, if Ascii.eqb x c then d else x) s.

(** [s.ljust(width, fill)] *)
Definition ljust (s : str) (width : Z) (fill : ascii) : str :=
  s ++ replicate (Z.to_nat width - length s) fill.

(** ['0' .. '9'] *)
Definition is_digit (c : ascii) : bool :=
  let n := nat_of_ascii c in (48 <=? n) && (n <=? 57).

Definition digit_value (c : ascii) : Z := Z.of_nat (nat_of_ascii c - 48).

(** The characters [int()] skips around a literal: the ASCII blanks
    (tab to carriage return, space) and, of the code points from 128 to
    255, the two that are Unicode spaces (NEL and the no-break space). *)
Definition is_space (c : ascii) : bool :=
  let n := nat_of_ascii c in
  ((9 <=? n) && (n <=? 13)) || (n =? 32) || (n =? 133) || (n =? 160).

Fixpoint lstrip_space (s : str) : str :=
  match s with
  | c :: s' => if is_space c then lstrip_space s' else s
  | [] => []
  end.

(** The digit run of an [int()] literal. Single underscores may
    separate digits; [prev] is the character read last. The result is
    the value and the unread rest, or [None] for a misplaced
    underscore. *)
Fixpoint scan_digits (s : str) (prev : ascii) (acc : Z) : option (Z * str) :=
  let finish := if Ascii.eqb prev "_" then None else Some (acc, s) in
  match s with
  | c :: s' =>
      if is_digit c then scan_digits s' c (10 * acc + digit_value c)%Z
      else if Ascii.eqb c "_" then
        (if Ascii.eqb prev "_" then None else scan_digits s' c acc)
      else finish
  | [] => finish
  end.

(** [int(s)] in base 10: blanks, an optional sign, digits, blanks. *)
Definition int (s : str) : result Z :=
  let body := lstrip_space s in
  let '(sign, digits) :=
    match body with
    | c :: r =>
        if Ascii.eqb c "+" then (1%Z, r)
        else if Ascii.eqb c "-" then ((-1)%Z, r)
        else (1%Z, body)
    | [] => (1%Z, body)
    end in
  match digits with
  | c :: _ =>
      if is_digit c then
        match scan_digits digits zero 0 with
        | Some (v, rest) =>
            match lstrip_space rest with
            | [] => Ok (sign * v)%Z
            | _ :: _ => Raise (ValueError_int s)
            end
        | None => Raise (ValueError_int s)
        end
      else Raise (ValueError_int s)
  | [] => Raise (ValueError_int s)
  end.

Definition digit_char (d : nat) : ascii := ascii_of_nat (48 + d).

Fixpoint uint_digits (d : Decimal.uint) : str :=
  match d with
  | Decimal.Nil => []
  | Decimal.D0 d => digit_char 0 :: uint_digits d
  | Decimal.D1 d => digit_char 1 :: uint_digits d
  | Decimal.D2 d => digit_char 2 :: uint_digits d
  | Decimal.D3 d => digit_char 3 :: uint_digits d
  | Decimal.D4 d => digit_char 4 :: uint_digits d
  | Decimal.D5 d => digit_char 5 :: uint_digits d
  | Decimal.D6 d => digit_char 6 :: uint_digits d
  | Decimal.D7 d => digit_char 7 :: uint_digits d
  | Decimal.D8 d => digit_char 8 :: uint_digits d
  | Decimal.D9 d => digit_char 9 :: uint_digits d
  end.

(** [str(n)] for a non-negative integer: its decimal numeral. *)
Definition str_of_nat (n : nat) : str := uint_digits (Nat.to_uint n).

(** The line boundaries of [str.splitlines] among the code points
    below 256. *)
Definition is_linebreak (c : ascii) : bool :=
  let n := nat_of_ascii c in
  ((10 <=? n) && (n <=? 13)) || ((28 <=? n) && (n <=? 30)) || (n =? 133).

Definition CR : ascii := ascii_of_nat 13.

(** [s.splitlines()]: the lines without their boundaries; a carriage
    return followed by a line feed is one boundary, and a boundary at the
    end opens no further line. *)
Fixpoint splitlines (s : str) : list str :=
  match s with
  | [] => []
  | c :: s' =>
      if is_linebreak c then
        [] :: match s' with
              | c' :: s'' =>
                  if Ascii.eqb c CR && Ascii.eqb c' LF then splitlines s''
                  else splitlines s'
              | [] => splitlines s'
              end
      else
        match splitlines s' with
        | line :: lines => (c :: line) :: lines
        | [] => [[c]]
        end
  end.

(** The characters [str.strip] removes: those below 256 for which
    [str.isspace] holds. *)
Definition is_whitespace (c : ascii) : bool :=
  let n := nat_of_ascii c in
  ((9 <=? n) && (n <=? 13)) || ((28 <=? n) && (n <=? 32))
  || (n =? 133) || (n =? 160).

(** [s.lstrip()] and [s.rstrip()] *)
Fixpoint lstrip (s : str) : str :=
  match s with
  | c :: s' => if is_whitespace c then lstrip s' else s
  | [] => []
  end.

Definition rstrip (s : str) : str :=
  foldr (λ c kept, match kept with
                   | [] => if is_whitespace c then [] else [c]
                   | _ :: _ => c :: kept
                   end) [] s.

End Py.

(** ** The renderer for math nodes *)

Module MathRendererMixin.

Definition block_math (text : str) : str := "$$" ++ text ++ "$$".

Definition block_latex (name text : str) : str :=
  "\begin{" ++ name ++ "}" ++ text ++ "\end{" ++ name ++ "}".

Definition math (text : str) : str := "$" ++ text ++ "$".

End MathRendererMixin.

(** ** The Markdown renderer *)

Module MdRenderer.

(** [get_block]: one chunk off the front of [text]. The result is
    (remainder, tag, payload) in the order the code returns it. *)
Definition get_block (text : str) : result (str * str * str) :=
  let! type := Py.getitem text 0 in
  let p := Py.find ":" text in
  if (p <=? 0)%Z then Ok ([], [], [])
  else
    let! l := Py.int (Py.slice text 1 p) in
    let t := Py.slice text (p + 1) (p + 1 + l) in
    Ok (Py.slice_from text (p + 1 + l), type, t).

(** The chunk every encoder writes: the tag, [str(len(payload))], a
    colon, the payload. *)
Definition chunk (tag : ascii) (payload : str) : str :=
  [tag] ++ Py.str_of_nat (length payload) ++ ":" ++ payload.

(** The tags in use. *)
Definition tags : list ascii := ["l"; "r"; "c"; "f"]%char.

(** [list_item] *)
Definition list_item (text : str) : str :=
  "l" ++ Py.str_of_nat (length text) ++ ":" ++ text.

(** What the [while text: text, type, t = get_block(text)] loops of
    [list] and [table] read off a buffer: the (tag, payload) pairs in
    order. *)
Fixpoint blocks (fuel : nat) (text : str) : option (result (list (str * str))) :=
  match text with
  | [] => Some (Ok [])
  | _ :: _ =>
      match fuel with
      | 0 => None
      | S fuel' =>
          match get_block text with
          | Raise e => Some (Raise e)
          | Ok (text', type, t) =>
              match blocks fuel' text' with
              | Some (Ok bs) => Some (Ok ((type, t) :: bs))
              | other => other
              end
          end
      end
  end.

(** The [while text:] loop of [list], [r] being the text built so far. *)
Fixpoint list_loop (fuel : nat) (text r : str) (ordered : bool)
  : option (result str) :=
  match text with
  | [] => Some (Ok r)
  | _ :: _ =>
      match fuel with
      | 0 => None
      | S fuel' =>
          match get_block text with
          | Raise e => Some (Raise e)
          | Ok (text', type, t) =>
              let r' :=
                if decide (type = "l")
                then r ++ (if ordered then "# " ++ t else "* " ++ t) ++ [LF]
                else r in
              list_loop fuel' text' r' ordered
          end
      end
  end.

(** [list] (the name is taken by the list type). *)
Definition list_ (fuel : nat) (text : str) (ordered : bool)
  : option (result str) :=
  list_loop fuel text [] ordered.

(** [table_row] *)
Definition table_row (content : str) : str :=
  "r" ++ Py.str_of_nat (length content) ++ ":" ++ content.

(** The value of a cell flag as the lexer passes it: a boolean
    ([header]), [None] or a string ([align]). *)
Inductive flag_value :=
| FBool (b : bool)
| FNone
| FStr (s : str).

(** [str(v)] after a boolean has been turned into [1] or [0]. *)
Definition flag_text (v : flag_value) : str :=
  match v with
  | FBool true => "1"
  | FBool false => "0"
  | FNone => "None"
  | FStr s => s
  end.

(** [table_cell]; [flags] are the keyword arguments in call order. *)
Definition table_cell (content : str) (flags : list (str * flag_value)) : str :=
  let content := Py.replace LF " " content in
  let r :=
    foldl (λ r '(fl, v),
             let v := flag_text v in
             r ++ "f" ++ Py.str_of_nat (length fl + 1 + length v) ++ ":"
               ++ fl ++ "=" ++ v)
          [] flags in
  r ++ "c" ++ Py.str_of_nat (length content) ++ ":" ++ content.

(** A decoded cell. Its [flags] attribute is a reference to the
    dictionary of its row: every cell of a row holds the same object. *)
Record cell := Cell { flags : nat; text : str }.

(** The dictionaries allocated so far, addressed by position. *)
Abbreviation heap := (list (gmap str str)).

Definition deref (h : heap) (ref : nat) : gmap str str :=
  default ∅ (h !! ref).

(** The inner [while t:] loop of [table], over the chunks of one row. *)
Fixpoint row_loop (fuel : nat) (t : str) (h : heap) (flags : nat)
    (cols : list cell) : option (result (heap * list cell)) :=
  match t with
  | [] => Some (Ok (h, cols))
  | _ :: _ =>
      match fuel with
      | 0 => None
      | S fuel' =>
          match get_block t with
          | Raise e => Some (Raise e)
          | Ok (t', type2, t2) =>
              if decide (type2 = "f") then
                match Py.split "=" t2 with
                | [fl; v] =>
                    row_loop fuel' t' (alter (insert fl v) flags h) flags cols
                | pieces => Some (Raise (ValueError_unpack (length pieces)))
                end
              else if decide (type2 = "c") then
                row_loop fuel' t' h flags (cols ++ [Cell flags t2])
              else row_loop fuel' t' h flags cols
          end
      end
  end.

(** The outer [while header:] / [while body:] loop of [table]; [n]
    bounds the iterations of each inner loop. *)
Fixpoint rows_loop (n fuel : nat) (text : str) (h : heap)
    (rows : list (list cell)) : option (result (heap * list (list cell))) :=
  match text with
  | [] => Some (Ok (h, rows))
  | _ :: _ =>
      match fuel with
      | 0 => None
      | S fuel' =>
          match get_block text with
          | Raise e => Some (Raise e)
          | Ok (text', type1, t) =>
              if decide (type1 = "r") then
                match row_loop n t (h ++ [∅]) (length h) [] with
                | Some (Ok (h', cols)) =>
                    rows_loop n fuel' text' h' (rows ++ [cols])
                | Some (Raise e) => Some (Raise e)
                | None => None
                end
              else rows_loop n fuel' text' h rows
          end
      end
  end.

(** [l[i]] and [l[i] = x] on a Python list. *)
Definition list_get {A} (l : list A) (i : nat) : result A :=
  match l !! i with
  | Some x => Ok x
  | None => Raise (IndexError OfList)
  end.

Definition list_set {A} (l : list A) (i : nat) (x : A) : result (list A) :=
  if decide (i < length l) then Ok (<[i:=x]> l) else Raise (IndexError OfList).

(** The column bookkeeping of [table]: [colscount], [colmax], [align]. *)
Record columns := Columns {
  colscount : nat;
  colmax : list Z;
  align : list str
}.

Definition columns_init : columns :=
  Columns 0 (replicate 100 0%Z) (replicate 100 []).

(** One turn of [for col in row] in the measuring pass. *)
Definition measure_cell (h : heap) (i : nat) (col : cell) (c : columns)
  : result columns :=
  let! w := list_get (colmax c) i in
  let! cm := list_set (colmax c) i (Z.max (Z.of_nat (length (text col))) w) in
  match deref h (flags col) !! ("align" : str) with
  | Some v =>
      let! a := Py.getitem v 0 in
      let! al := list_set (align c) i a in
      Ok (Columns (colscount c) cm al)
  | None => Ok (Columns (colscount c) cm (align c))
  end.

Fixpoint measure_row (h : heap) (row : list cell) (i : nat) (c : columns)
  : result columns :=
  match row with
  | [] => Ok c
  | col :: row' =>
      let! c' := measure_cell h i col c in
      measure_row h row' (S i) c'
  end.

(** [for row in hrows + brows] *)
Fixpoint measure (h : heap) (rows : list (list cell)) (c : columns)
  : result columns :=
  match rows with
  | [] => Ok c
  | row :: rows' =>
      let c0 := Columns (Nat.max (length row) (colscount c)) (colmax c) (align c) in
      let! c' := measure_row h row 0 c0 in
      measure h rows' c'
  end.

(** The cells of one row, padded and joined. *)
Fixpoint emit_cells (row : list cell) (i : nat) (cm : list Z) (r : str)
  : result str :=
  match row with
  | [] => Ok r
  | col :: row' =>
      let r := if decide (0 < i) then r ++ " | " else r in
      let! w := list_get cm i in
      emit_cells row' (S i) cm (r ++ Py.ljust (text col) w " ")
  end.

Fixpoint emit_rows (rows : list (list cell)) (cm : list Z) (r : str)
  : result str :=
  match rows with
  | [] => Ok r
  | row :: rows' =>
      let! r' := emit_cells row 0 cm r in
      emit_rows rows' cm (r' ++ [LF])
  end.

(** One turn of [for i in range(colscount)]: the separator of column [i]. *)
Definition emit_rule (c : columns) (i : nat) (r : str) : result str :=
  let r := if decide (0 < i) then r ++ " | " else r in
  let! a := list_get (align c) i in
  let! w := list_get (colmax c) i in
  if decide (a = "c") then Ok (r ++ ":" ++ Py.ljust "-" (w - 2) "-" ++ ":")
  else if decide (a = "l") then Ok (r ++ ":" ++ Py.ljust "-" (w - 1) "-")
  else if decide (a = "r") then Ok (r ++ Py.ljust "-" (w - 1) "-" ++ ":")
  else Ok (r ++ Py.ljust "-" w "-").

Fixpoint emit_rules (c : columns) (range : list nat) (r : str) : result str :=
  match range with
  | [] => Ok r
  | i :: range' =>
      let! r' := emit_rule c i r in
      emit_rules c range' r'
  end.

(** [table] once the rows are decoded. *)
Definition table_layout (h : heap) (hrows brows : list (list cell))
  : result str :=
  let! c := measure h (hrows ++ brows) columns_init in
  let! r := emit_rows hrows (colmax c) [] in
  let! r := emit_rules c (seq 0 (colscount c)) r in
  let r := r ++ [LF] in
  emit_rows brows (colmax c) r.

(** The two decoding loops of [table]. *)
Definition table_rows (n : nat) (header body : str)
  : option (result (heap * list (list cell) * list (list cell))) :=
  match rows_loop n n header [] [] with
  | Some (Ok (h, hrows)) =>
      match rows_loop n n body h [] with
      | Some (Ok (h', brows)) => Some (Ok (h', hrows, brows))
      | Some (Raise e) => Some (Raise e)
      | None => None
      end
  | Some (Raise e) => Some (Raise e)
  | None => None
  end.

(** [table] *)
Definition table (n : nat) (header body : str) : option (result str) :=
  match table_rows n header body with
  | Some (Ok (h, hrows, brows)) => Some (table_layout h hrows brows)
  | Some (Raise e) => Some (Raise e)
  | None => None
  end.

(** [block_quote] *)
Definition block_quote (text : str) : str :=
  foldl (λ r line,
           r ++ (match line with _ :: _ => "> " | [] => "" end) ++ line ++ [LF])
        [] (Py.splitlines text).

(** [footnote_ref]; the key is a string already. *)
Definition footnote_ref (key : str) : str := "[^" ++ key ++ "]".

(** [footnote_item] *)
Definition footnote_item (key text : str) : str :=
  foldl (λ r l, r ++ "  " ++ Py.rstrip (Py.lstrip l) ++ [LF])
        ("[^" ++ key ++ "]:" ++ [LF]) (Py.split LF text).

(** [link] *)
Definition link (link : str) (title : option str) (text : str) (image : bool)
  : str :=
  let r := (if image then "!" else "") ++ "[" ++ text ++ "](" ++ link ++ ")" in
  match title with
  | Some (_ :: _ as title) => r ++ [DQUOTE] ++ title ++ [DQUOTE]
  | _ => r
  end.

(** [image]: the link text is built and dropped; the method has no
    [return] statement, so its value is [None]. *)
Definition image (src : str) (title : option str) (text : str) : option str :=
  let _ := link src title text true in
  None.

End MdRenderer.

(** ** The math rules of the lexers *)

(** Reading up to a delimiter: [Some (before, after)] at its first
    occurrence. *)
Fixpoint split_at_first (pat s : str) : option (str * str) :=
  if Py.startswith s pat then Some ([], drop (length pat) s)
  else match s with
       | [] => None
       | c :: s' =>
           match split_at_first pat s' with
           | Some (before, after) => Some (c :: before, after)
           | None => None
           end
       end.

Module MathBlockMixin.

(** The body of [rules.block_math] after the opening [$$]: the
    characters other than [$] up to a closing [$$]. *)
Fixpoint block_math_body (s : str) : option (str * str) :=
  match s with
  | [] => None
  | c :: s' =>
      if Ascii.eqb c "$" then
        match s' with
        | c' :: rest => if Ascii.eqb c' "$" then Some ([], rest) else None
        | [] => None
        end
      else
        match block_math_body s' with
        | Some (body, rest) => Some (c :: body, rest)
        | None => None
        end
  end.

(** [rules.block_math], the pattern [^\$\$([^\$]*?)\$\$] with DOTALL:
    group 1 and the input after the match. *)
Definition block_math (s : str) : option (str * str) :=
  if Py.startswith s "$$" then block_math_body (drop 2 s) else None.

Definition is_lower (c : ascii) : bool :=
  let n := nat_of_ascii c in (97 <=? n) && (n <=? 122).

(** [[a-z]*]: the longest run of lower-case letters. *)
Fixpoint lower_run (s : str) : str * str :=
  match s with
  | c :: s' =>
      if is_lower c then let '(run, rest) := lower_run s' in (c :: run, rest)
      else ([], s)
  | [] => ([], [])
  end.

(** [rules.block_latex], the pattern
    [^\\begin\{([a-z]*\*?)\}(.*?)\\end\{\1\}] with DOTALL: groups 1
    and 2 and the input after the match. *)
Definition block_latex (s : str) : option (str * str * str) :=
  if Py.startswith s "\begin{" then
    let '(letters, s1) := lower_run (drop 7 s) in
    let '(star, s2) :=
      match s1 with
      | c :: r => if Ascii.eqb c "*" then (["*"%char], r) else ([], s1)
      | [] => ([], s1)
      end in
    match s2 with
    | c :: s3 =>
        if Ascii.eqb c "}" then
          let name := letters ++ star in
          match split_at_first ("\end{" ++ name ++ "}") s3 with
          | Some (text, rest) => Some (name, text, rest)
          | None => None
          end
        else None
    | [] => None
    end
  else None.

(** [enable_math]: the two rules go in front of the lexer's own. *)
Definition enable_math (default_rules : list str) : list str :=
  [("block_math" : str); ("block_latex" : str)] ++ default_rules.

(** The tokens [parse_block_math] and [parse_block_latex] append. *)
Inductive token :=
| block_math_token (text : str)
| block_latex_token (name text : str).

Definition parse_block_math (group1 : str) : token :=
  block_math_token group1.

Definition parse_block_latex (group1 group2 : str) : token :=
  block_latex_token group1 group2.

End MathBlockMixin.

Module MathInlineMixin.

(** After the first character of the group: on to the nearest [$],
    never across a line feed. *)
Fixpoint math_rest (s : str) : option (str * str) :=
  match s with
  | [] => None
  | c :: s' =>
      if Ascii.eqb c "$" then Some ([], s')
      else if Ascii.eqb c LF then None
      else match math_rest s' with
           | Some (more, rest) => Some (c :: more, rest)
           | None => None
           end
  end.

(** [rules.math], the pattern [^\$(.+?)\$]: group 1 and the input
    after the match. *)
Definition math (s : str) : option (str * str) :=
  match s with
  | d :: c :: s' =>
      if Ascii.eqb d "$" && negb (Ascii.eqb c LF) then
        match math_rest s' with
        | Some (more, rest) => Some (c :: more, rest)
        | None => None
        end
      else None
  | _ => None
  end.

(** [enable_math]: [default_rules.insert(0, 'math')]. The method also
replaces the pattern of the plain [text] rule, so that text stops in front
of a [$]; that pattern belongs to the rule outputs, which are a parameter
here. *)
Definition enable_math (default_rules : list str) : list str :=
  ("math" : str) :: default_rules.

(** [output_math] *)
Definition output_math (group1 : str) : str := MathRendererMixin.math group1.

End MathInlineMixin.

Module MarkdownWithMath.

(** [output_block_math] and [output_block_latex], by token type. *)
Definition output (tok : MathBlockMixin.token) : str :=
  match tok with
  | MathBlockMixin.block_math_token text => MathRendererMixin.block_math text
  | MathBlockMixin.block_latex_token name text =>
      MathRendererMixin.block_latex name text
  end.

(** A block rule of the math lexer fired on [s] and its token
    rendered: the output and the input left. *)
Definition render_block_math (s : str) : option (str * str) :=
  match MathBlockMixin.block_math s with
  | Some (g1, rest) => Some (output (MathBlockMixin.parse_block_math g1), rest)
  | None => None
  end.

Definition render_block_latex (s : str) : option (str * str) :=
  match MathBlockMixin.block_latex s with
  | Some (g1, g2, rest) =>
      Some (output (MathBlockMixin.parse_block_latex g1 g2), rest)
  | None => None
  end.

Definition render_math (s : str) : option (str * str) :=
  match MathInlineMixin.math s with
  | Some (g1, rest) => Some (MathInlineMixin.output_math g1, rest)
  | None => None
  end.

End MarkdownWithMath.

(** The rule loop of the inline lexer the mixin extends (mistune's
    [InlineLexer.output]): the rules are tried in list order and the first
    one that matches with an output wins. [output key text] is the output
    and the input left when rule [key] matches at the front of [text]. *)
Module InlineLexer.

Fixpoint manipulate (output : str → str → option (str * str))
    (rules : list str) (text : str) : option (str * str * str) :=
  match rules with
  | [] => None
  | key :: rules' =>
      match output key text with
      | Some (out, rest) => Some (key, out, rest)
      | None => manipulate output rules' text
      end
  end.

(** The rule list of the stock inline lexer. *)
Definition default_rules : list str :=
  [ ("escape" : str); ("inline_html" : str); ("autolink" : str); ("url" : str);
    ("footnote" : str); ("link" : str); ("reflink" : str); ("nolink" : str);
    ("double_emphasis" : str); ("emphasis" : str); ("code" : str);
    ("linebreak" : str); ("strikethrough" : str); ("text" : str) ].

End InlineLexer.

Module MathInlineLexer.

(** The outputs of the math lexer: [output_math] for the rule the
    mixin adds, the stock lexer's [base] for every other rule. *)
Definition output (base : str → str → option (str * str)) (key text : str)
  : option (str * str) :=
  if decide (key = "math") then MarkdownWithMath.render_math text
  else base key text.

Definition default_rules : list str :=
  MathInlineMixin.enable_math InlineLexer.default_rules.

End MathInlineLexer.

(** A sequence of chunks, encoded one after the other. *)
Definition encode_all (chunks : list (ascii * str)) : str :=
  concat (map (λ c, MdRenderer.chunk c.1 c.2) chunks).

(** Both column arrays have the hundred entries they are created with. *)
Definition sized (c : MdRenderer.columns) : Prop :=
  length (MdRenderer.colmax c) = 100 ∧ length (MdRenderer.align c) = 100.

(** A cell whose flags hold an empty [align] value. *)
Definition empty_align (h : MdRenderer.heap) (col : MdRenderer.cell) : Prop :=
  MdRenderer.deref h (MdRenderer.flags col) !! ("align" : str) = Some [].

(** The [align] value a cell sees in its flags, if any. *)
Definition cell_align (h : MdRenderer.heap) (col : MdRenderer.cell) : option str :=
  MdRenderer.deref h (MdRenderer.flags col) !! ("align" : str).

(** The [align] values column [i] meets from the top row to the bottom
    one: one for each row that has a cell there with the flag. *)
Definition column_aligns (h : MdRenderer.heap) (rows : list (list MdRenderer.cell))
    (i : nat) : list str :=
  omap (λ row, row !! i ≫= cell_align h) rows.

(** The alignment the specification words for a column: from the first
    non-empty [align] value met. *)
Definition spec_first_align (h : MdRenderer.heap)
    (rows : list (list MdRenderer.cell)) (i : nat) : str :=
  match head (filter (λ v, v ≠ []) (column_aligns h rows i)) with
  | Some v => take 1 v
  | None => []
  end.

(** The alignment from the last [align] value met. *)
Definition last_align (h : MdRenderer.heap)
    (rows : list (list MdRenderer.cell)) (i : nat) : str :=
  match last (column_aligns h rows i) with
  | Some v => take 1 v
  | None => []
  end.

(** A one-column table: the header cell aligned left, the body cell
    aligned right. *)
Definition left_header : str :=
  MdRenderer.table_row
    (MdRenderer.table_cell "A"
       [("header" : str, MdRenderer.FBool true);
        ("align" : str, MdRenderer.FStr "left")]).

Definition right_body : str :=
  MdRenderer.table_row
    (MdRenderer.table_cell "1"
       [("header" : str, MdRenderer.FBool false);
        ("align" : str, MdRenderer.FStr "right")]).

Definition left_right_heap : MdRenderer.heap :=
  [ <[("align" : str) := ("left" : str)]> (<[("header" : str) := ("1" : str)]> ∅);
    <[("align" : str) := ("right" : str)]> (<[("header" : str) := ("0" : str)]> ∅) ].

(** The precedence the specification words for the inline-math rule:
    every rule other than [math] itself and the plain [text] fallback
    stands before [math] in the rule list. *)
Definition math_tried_last (rules : list str) : Prop :=
  ∀ i j (key : str),
    rules !! i = Some ("math" : str) → rules !! j = Some key →
    key ≠ "math" → key ≠ "text" → j < i.

(** ** The image embedding layer *)

Abbreviation bytes := (list Byte.byte).

(** What a path names in the file system. *)
Inductive node :=
| File (content : bytes)
| Directory.

(** The libraries and the machine around the program. *)
Class Platform := {
  (** [urlparse(src).scheme] *)
  urlparse_scheme : str → str;
  (** the file system, read-only while images are embedded *)
  filesystem : str → option node;
  (** [cairosvg.svg2png(url=path, scale=2.5)]: the PNG written, [None] on failure *)
  svg2png : str → option bytes;
  (** [Image.open(png)]: its width and height in pixels, [None] on failure *)
  image_size : bytes → option (nat * nat);
  (** [mistune.escape_link] and [mistune.escape] *)
  escape_link : str → str;
  escape : str → str
}.

Module os_path.

(** [os.path.join(a, b)] on POSIX. *)
Definition join (a b : str) : str :=
  if Py.startswith b "/" then b
  else if decide (a = []) then a ++ b
  else if Py.endswith a "/" then a ++ b
  else a ++ "/" ++ b.

Definition exists_ `{Platform} (path : str) : bool :=
  match filesystem path with
  | Some _ => true
  | None => false
  end.

(** The [while filenameIndex < dotIndex] loop of [splitext] over the
    characters between the last separator and the last dot: is one of
    them not a dot? *)
Fixpoint has_stem (name : str) : bool :=
  match name with
  | [] => false
  | c :: name' => if Ascii.eqb c "." then has_stem name' else true
  end.

(** [os.path.splitext(p)] on POSIX. *)
Definition splitext (p : str) : str * str :=
  let sepIndex := Py.rfind "/" p in
  let dotIndex := Py.rfind "." p in
  if (sepIndex <? dotIndex)%Z && has_stem (Py.slice p (sepIndex + 1) dotIndex)
  then (Py.slice_to p dotIndex, Py.slice_from p dotIndex)
  else (p, []).

End os_path.

(** [base64.b64encode(content).decode('utf-8')]: the standard alphabet
    with [=] padding; the output is ASCII, so decoding it is the identity. *)
Module base64.

Definition alphabet : str :=
  "ABCDEFGHIJKLMNOPQRSTUVWXYZabcdefghijklmnopqrstuvwxyz0123456789+/".

Definition sextet (n : N) : ascii := nth (N.to_nat n) alphabet "="%char.

Fixpoint b64encode (content : bytes) : str :=
  match content with
  | [] => []
  | a :: [] =>
      let a := Byte.to_N a in
      [ sextet (N.shiftr a 2); sextet (N.shiftl (N.land a 3) 4);
        "="%char; "="%char ]
  | a :: b :: [] =>
      let a := Byte.to_N a in
      let b := Byte.to_N b in
      [ sextet (N.shiftr a 2);
        sextet (N.lor (N.shiftl (N.land a 3) 4) (N.shiftr b 4));
        sextet (N.shiftl (N.land b 15) 2);
        "="%char ]
  | a :: b :: c :: rest =>
      let a := Byte.to_N a in
      let b := Byte.to_N b in
      let c := Byte.to_N c in
      [ sextet (N.shiftr a 2);
        sextet (N.lor (N.shiftl (N.land a 3) 4) (N.shiftr b 4));
        sextet (N.lor (N.shiftl (N.land b 15) 2) (N.shiftr c 6));
        sextet (N.land c 63) ] ++ b64encode rest
  end.

End base64.

Module EmbedImagesRenderer.

(** The attributes [__init__] sets. *)
Record self := Self {
  root_path : str;
  convert_svgs : bool
}.

Definition _mime_types : gmap str str :=
  list_to_map
    [ ("gif" : str, "image/gif" : str);
      ("pbm" : str, "image/x-portable-bitmap" : str);
      ("pgm" : str, "image/x-portable-graymap" : str);
      ("ppm" : str, "image/x-portable-pixmap" : str);
      ("tiff" : str, "image/tiff" : str);
      ("xbm" : str, "image/x-xbitmap" : str);
      ("jpg" : str, "image/jpeg" : str);
      ("jpeg" : str, "image/jpeg" : str);
      ("bmp" : str, "image/x-ms-bmp" : str);
      ("png" : str, "image/png" : str);
      ("svg" : str, "image/svg+xml" : str) ].

(** [_mime_type] *)
Definition _mime_type (fname : str) : option str :=
  let img_ext := Py.slice_from (snd (os_path.splitext fname)) 1 in
  _mime_types !! img_ext.

(** [_html_image] *)
Definition _html_image `{Platform} (src : str) (title : option str)
    (text : str) (width height : option nat) : str :=
  let s := "<img src=" ++ [DQUOTE] ++ escape_link src ++ [DQUOTE] in
  let s :=
    match text with
    | _ :: _ => s ++ " alt=" ++ [DQUOTE] ++ text ++ [DQUOTE]
    | [] => s
    end in
  let s :=
    match width with
    | Some w => s ++ " width=" ++ [DQUOTE] ++ Py.str_of_nat w ++ [DQUOTE]
    | None => s
    end in
  let s :=
    match height with
    | Some h => s ++ " height=" ++ [DQUOTE] ++ Py.str_of_nat h ++ [DQUOTE]
    | None => s
    end in
  let s :=
    match title with
    | Some (_ :: _ as title) =>
        s ++ " title=" ++ [DQUOTE] ++ escape title ++ [DQUOTE]
    | _ => s
    end in
  s ++ " />".

(** ["data:{mimetype};base64,{enc}"] *)
Definition data_uri (mimetype : str) (content : bytes) : str :=
  "data:" ++ mimetype ++ ";base64," ++ base64.b64encode content.

(** [int(pixels / 2.5)]: the quotient is exact or at least a fifth
    away from an integer, so truncating the float is the integer
    division of twice the pixels by five. *)
Definition display_size (pixels : nat) : nat := (2 * pixels) / 5.

(** [_to_data_src]: the data URI with the display size, or three
    [None]s for a source that is not a local path. *)
Definition _to_data_src `{Platform} (s : self) (src : str)
  : result (option str * option nat * option nat) :=
  let scheme := urlparse_scheme src in
  if negb (bool_decide (scheme = [])) then Ok (None, None, None)
  else
    let filepath := os_path.join (root_path s) src in
    if negb (os_path.exists_ filepath) then
      Raise (OSError ("File '" ++ filepath ++ "' not found."))
    else
      match _mime_type src with
      | None => Raise (ValueError ("Mimetype for '" ++ src ++ "' unknown."))
      | Some mimetype =>
          if convert_svgs s && bool_decide (mimetype = "image/svg+xml") then
            match svg2png filepath with
            | Some content =>
                match image_size content with
                | Some (w, h) =>
                    Ok (Some (data_uri "image/png" content),
                        Some (display_size w), Some (display_size h))
                | None => Raise ExternalError
                end
            | None => Raise ExternalError
            end
          else
            match filesystem filepath with
            | Some (File content) =>
                Ok (Some (data_uri mimetype content), None, None)
            | Some Directory => Raise (IsADirectoryError filepath)
            | None => Raise (FileNotFoundError filepath)
            end
      end.

(** [image] *)
Definition image `{Platform} (s : self) (src : str) (title : option str)
    (text : str) : result (option str) :=
  match _to_data_src s src with
  | Raise e => Raise e
  | Ok (None, _, _) => Ok (MdRenderer.image src title text)
  | Ok (Some data_src, width, height) =>
      Ok (Some (_html_image data_src title text width height))
  end.

(** [[^>]+]: the longest run of characters other than [>], and what
    follows it. *)
Fixpoint tag_run (s : str) : str * str :=
  match s with
  | c :: s' =>
      if Ascii.eqb c ">" then ([], s)
      else let '(run, rest) := tag_run s' in (c :: run, rest)
  | [] => ([], [])
  end.

(** The end of [outer_tag], the pattern [</[^>]+>$]: a closing tag on
    which the input ends, a final line feed apart. *)
Definition closing_tag (s : str) : bool :=
  Py.startswith s "</"
  && match tag_run (drop 2 s) with
     | (_ :: _, rest) =>
         bool_decide (rest = ">") || bool_decide (rest = ">" ++ [LF])
     | ([], _) => false
     end.

(** Group 1 of [outer_tag], [(.*?)] with DOTALL: read on to the first
    place where the closing tag matches. *)
Fixpoint outer_tag_body (s : str) : option str :=
  if closing_tag s then Some []
  else match s with
       | [] => None
       | c :: s' =>
           match outer_tag_body s' with
           | Some group => Some (c :: group)
           | None => None
           end
       end.

(** [outer_tag.search(html)], the pattern [^<[^>]+>(.*?)</[^>]+>$]
    with DOTALL: group 1 of the match, if there is one. *)
Definition outer_tag (html : str) : option str :=
  match html with
  | c :: s =>
      if Ascii.eqb c "<" then
        match tag_run s with
        | (_ :: _, c' :: rest) =>
            if Ascii.eqb c' ">" then outer_tag_body rest else None
        | _ => None
        end
      else None
  | [] => None
  end.

(** [_strip_outer_tag] *)
Definition _strip_outer_tag (html_fragment : str) : str :=
  match outer_tag html_fragment with
  | None => html_fragment
  | Some group => group
  end.

End EmbedImagesRenderer.

(** The characters [mistune.escape] rewrites when quotes are escaped too. *)
Definition html_special : list ascii := ["&"; "<"; ">"; DQUOTE; "'"]%char.

Definition html_plain (c : ascii) : Prop := c ∉ html_special.

(** What the embedding relies on in [mistune.escape_link]: a [data:] URI
    free of the characters HTML escaping rewrites passes unchanged. *)
Definition keeps_data_uris (escape_link : str → str) : Prop :=
  ∀ u : str, Forall html_plain u → escape_link ("data:" ++ u) = "data:" ++ u.

(** ** A concrete platform *)

(** One instance of [Platform], to run the embedding layer on: a
    directory [lab] with a small PNG, a text file and a sub-directory, and
    stand-ins for the library functions. *)
Module Sample.

Definition is_alpha (c : ascii) : bool :=
  let n := nat_of_ascii c in
  ((65 <=? n) && (n <=? 90)) || ((97 <=? n) && (n <=? 122)).

Definition lower (c : ascii) : ascii :=
  let n := nat_of_ascii c in
  if (65 <=? n) && (n <=? 90) then ascii_of_nat (n + 32) else c.

(** The characters a URL scheme is made of. *)
Definition scheme_char (c : ascii) : bool :=
  is_alpha c || Py.is_digit c
  || Ascii.eqb c "+" || Ascii.eqb c "-" || Ascii.eqb c ".".

(** The scheme as [urlsplit] finds it: what stands before the first
    colon, when it starts with a letter and consists of scheme
    characters, in lower case. *)
Definition scheme (url : str) : str :=
  let i := Py.find ":" url in
  let candidate := Py.slice_to url i in
  if (0 <? i)%Z && forallb scheme_char candidate
     && match candidate with c :: _ => is_alpha c | [] => false end
  then map lower candidate
  else [].

(** [escape(text, quote=True, smart_amp=False)] *)
Definition escape_char (c : ascii) : str :=
  if Ascii.eqb c "&" then "&amp;"
  else if Ascii.eqb c "<" then "&lt;"
  else if Ascii.eqb c ">" then "&gt;"
  else if Ascii.eqb c DQUOTE then "&quot;"
  else if Ascii.eqb c "'" then "&#39;"
  else [c].

Definition escape_quote (text : str) : str := flat_map escape_char text.

Definition url_char (c : ascii) : bool :=
  is_alpha c || Py.is_digit c || Ascii.eqb c "/" || Ascii.eqb c ":".

(** [escape_link]: a URL whose letters, digits, slashes and colons
    begin with a script scheme is dropped, any other is escaped. *)
Definition escape_link (url : str) : str :=
  let bare := filter (λ c, url_char c = true) (map lower url) in
  if Py.startswith bare "javascript:" || Py.startswith bare "vbscript:"
  then []
  else escape_quote url.

Definition png : bytes :=
  [Byte.x89; Byte.x50; Byte.x4e; Byte.x47; Byte.x0d; Byte.x0a; Byte.x1a;
   Byte.x0a]%list.

Definition files (path : str) : option node :=
  if decide (path = "lab/img.png") then Some (File png)
  else if decide (path = "lab/img.xyz") then Some (File [Byte.x00])
  else if decide (path = "lab/old.png") then Some Directory
  else if decide (path = "lab/") then Some Directory
  else None.

#[global] Instance platform : Platform := {
  urlparse_scheme := scheme;
  filesystem := files;
  svg2png := λ _, None;
  image_size := λ _, None;
  escape_link := escape_link;
  escape := escape_quote
}.

Definition renderer : EmbedImagesRenderer.self :=
  EmbedImagesRenderer.Self "lab" true.

End Sample.

(** ** Clearing the outputs of code cells *)

Module ClearOutputByTagPreprocessor.

(** The value of a metadata entry. *)
Inductive mvalue :=
| MBool (b : bool)
| MStr (s : str).

(** The metadata of a cell. The entry under [tags] is kept apart from
    the other entries: the notebook format makes it a list of strings. *)
Record metadata := Metadata {
  tags : option (list str);
  fields : gmap str mvalue
}.

(** A notebook cell, as far as the preprocessor looks at it. *)
Record cell := Cell {
  cell_type : str;
  meta : option metadata;
  outputs : list str;
  execution_count : option Z
}.

(** The attributes of the preprocessor; [remove_metadata_fields] is
    [{'collapsed', 'scrolled'}] unless configured otherwise. *)
Record self := Self {
  with_tags : option (gset str);
  without_tags : option (gset str);
  remove_metadata_fields : gset str
}.

(** [set(cell.get('metadata', {}).get('tags', []))] *)
Definition cell_tags (c : cell) : gset str :=
  match meta c with
  | Some m =>
      match tags m with
      | Some l => list_to_set l
      | None => ∅
      end
  | None => ∅
  end.

(** The test of [preprocess_cell] on the tags of a code cell. *)
Definition selected (s : self) (tags : gset str) : bool :=
  match with_tags s with
  | None => true
  | Some w => bool_decide (size (w ∩ tags) = size w)
  end
  && match without_tags s with
     | None => true
     | Some w => bool_decide (size (w ∩ tags) = 0)
     end.

(** [cell.metadata.pop(field, None)] *)
Definition pop (field : str) (m : metadata) : metadata :=
  if decide (field = "tags") then Metadata None (delete field (fields m))
  else Metadata (tags m) (delete field (fields m)).

(** [for field in self.remove_metadata_fields: cell.metadata.pop(field, None)] *)
Definition pop_fields (remove : gset str) (m : metadata) : metadata :=
  set_fold pop m remove.

(** [preprocess_cell]; the resources are handed back untouched. *)
Definition preprocess_cell (s : self) (c : cell) : cell :=
  if decide (cell_type c = "code") then
    if selected s (cell_tags c) then
      Cell (cell_type c) (pop_fields (remove_metadata_fields s) <$> meta c) [] None
    else c
  else c.

(** [ClearOutputByTagPreprocessor(without_tags=['keep'])], as the
    script builds it. *)
Definition keeping : self :=
  Self None (Some {[("keep" : str)]}) {[("collapsed" : str); ("scrolled" : str)]}.

End ClearOutputByTagPreprocessor.

(** ** Tables as the lexer hands them to the renderer *)

(** A cell before encoding: its content and the keyword flags of the
    [table_cell] call. A row is a list of cells. *)
Abbreviation source_cell := (str * list (str * MdRenderer.flag_value))%type.

(** [table_row] applied to the concatenated [table_cell]s of a row, the
    way the table lexer calls the two. *)
Definition encode_row (cells : list source_cell) : str :=
  MdRenderer.table_row (concat (map (λ c, MdRenderer.table_cell c.1 c.2) cells)).

Definition encode_rows (rows : list (list source_cell)) : str :=
  concat (map encode_row rows).

(** The chunks a row is made of: one per flag and one per cell. *)
Definition row_chunks (cells : list source_cell) : nat :=
  foldr (λ c k, S (length c.2) + k) 0 cells.

(** Flag names and values that can be split again at the [=] sign. *)
Definition splittable (cells : list source_cell) : Prop :=
  Forall (λ c, Forall (λ f, ("="%char ∉ f.1)
                            ∧ ("="%char ∉ MdRenderer.flag_text f.2)) c.2)
         cells.

(** A dictionary after the flags of one cell, and of a whole row, have
    been stored in it, a later flag replacing an earlier one of the same
    name. *)
Definition store_flags (d : gmap str str) (flags : list (str * MdRenderer.flag_value))
  : gmap str str :=
  foldl (λ d f, <[f.1 := MdRenderer.flag_text f.2]> d) d flags.

Definition store_row (d : gmap str str) (cells : list source_cell) : gmap str str :=
  foldl (λ d c, store_flags d c.2) d cells.

(** The decoded cells of a row whose dictionary is at [ref]. *)
Definition decoded_row (ref : nat) (cells : list source_cell) : list MdRenderer.cell :=
  map (λ c, MdRenderer.Cell ref (Py.replace LF " " c.1)) cells.

(** The widest cell text of column [i], 0 for a column without cells. *)
Definition column_width (rows : list (list MdRenderer.cell)) (i : nat) : Z :=
  foldr Z.max 0%Z
    (omap (λ row, (λ col, Z.of_nat (length (MdRenderer.text col))) <$> (row !! i))
          rows).

(** The fewest characters the rule under a column takes: the colons of
    its alignment and one dash. *)
Definition rule_width (a : str) : Z :=
  if decide (a = "c") then 3%Z
  else if decide (a = "l") then 2%Z
  else if decide (a = "r") then 2%Z
  else 1%Z.

(** ** Names and delimiters of the math rules *)

(** An environment name as [rules.block_latex] takes it: lower-case
    letters, then at most one star. *)
Definition env_name (name : str) : Prop :=
  ∃ letters star : str,
    name = letters ++ star
    ∧ Forall (λ c, MathBlockMixin.is_lower c = true) letters
    ∧ (star = [] ∨ star = ["*"%char]).

(** [pat] does not occur in [s] at a position before [n]. *)
Definition not_before (pat s : str) (n : nat) : Prop :=
  ∀ k, k < n → Py.startswith (drop k s) pat = false.

(** The part of a path after its last slash. *)
Definition last_component (p : str) : str :=
  Py.slice_from p (Py.rfind "/" p + 1).

(** A line that [str.strip] leaves alone: no blank at either end. *)
Definition trimmed (l : str) : Prop :=
  match l with
  | [] => True
  | c :: _ => Py.is_whitespace c = false
  end
  ∧ match last l with
    | Some c => Py.is_whitespace c = false
    | None => True
    end.

(** ** The primitives on a few inputs *)

Example int_accepts :
  Py.int " 1_0 " = Ok 10%Z ∧ Py.int "+5" = Ok 5%Z ∧ Py.int "-4" = Ok (-4)%Z
  ∧ Py.int "007" = Ok 7%Z.
Proof. repeat split. Qed.

Example int_rejects :
  Py.int "" = Raise (ValueError_int "")
  ∧ Py.int "1_" = Raise (ValueError_int "1_")
  ∧ Py.int "1__0" = Raise (ValueError_int "1__0")
  ∧ Py.int "+ 1" = Raise (ValueError_int "+ 1")
  ∧ Py.int "1 2" = Raise (ValueError_int "1 2")
  ∧ Py.int "x" = Raise (ValueError_int "x").
Proof. repeat split. Qed.

Example slice_clamps :
  Py.slice "x-4:" 4 0 = ("" : str) ∧ Py.slice_from "x-4:" 0 = ("x-4:" : str)
  ∧ Py.slice_from "x-4:" (-94) = ("x-4:" : str)
  ∧ Py.slice "abcdef" 2 (-1) = ("cde" : str)
  ∧ Py.slice "abc" 1 10 = ("bc" : str).
Proof. repeat split. Qed.

Example splitlines_samples :
  Py.splitlines ("a" ++ [LF] ++ [LF] ++ "b") = [("a" : str); ("" : str); ("b" : str)]
  ∧ Py.splitlines ("a" ++ [LF]) = [("a" : str)]
  ∧ Py.splitlines [LF] = [("" : str)]
  ∧ Py.splitlines "" = []
  ∧ Py.splitlines ("a" ++ [Py.CR; LF] ++ "b" ++ [Py.CR] ++ "c")
    = [("a" : str); ("b" : str); ("c" : str)].
Proof. repeat split. Qed.

Example strip_samples :
  Py.rstrip (Py.lstrip "  a b  ") = ("a b" : str)
  ∧ Py.rstrip (Py.lstrip "   ") = ("" : str)
  ∧ Py.rstrip "a " = ("a" : str).
Proof. repeat split. Qed.

Example strip_outer_tag_samples :
  EmbedImagesRenderer._strip_outer_tag ("<body><p>x</p></body>" ++ [LF])
  = ("<p>x</p>" : str)
  ∧ EmbedImagesRenderer._strip_outer_tag "<a>x</b</c>" = ("x" : str)
  ∧ EmbedImagesRenderer._strip_outer_tag "<a>x</b>y</c>" = ("x</b>y" : str)
  ∧ EmbedImagesRenderer._strip_outer_tag "<a></a>" = ("" : str)
  ∧ EmbedImagesRenderer._strip_outer_tag "<>x</a>" = ("<>x</a>" : str)
  ∧ EmbedImagesRenderer._strip_outer_tag "<a>x</>" = ("<a>x</>" : str)
  ∧ EmbedImagesRenderer._strip_outer_tag "<a>x</a> " = ("<a>x</a> " : str)
  ∧ EmbedImagesRenderer._strip_outer_tag "x<a>y</a>" = ("x<a>y</a>" : str)
  ∧ EmbedImagesRenderer._strip_outer_tag ("<a>x</a>" ++ [LF; LF])
    = "<a>x</a>" ++ [LF; LF].
Proof. repeat split. Qed.

Example split_pieces :
  Py.split "=" "a=b=c" = [("a" : str); ("b" : str); ("c" : str)]
  ∧ Py.split "=" "" = [("" : str)]
  ∧ Py.split "=" "=" = [("" : str); ("" : str)].
Proof. repeat split. Qed.

Example splitext_samples :
  os_path.splitext "img.png" = ("img" : str, ".png" : str)
  ∧ os_path.splitext ".png" = (".png" : str, "" : str)
  ∧ os_path.splitext "a.b/c" = ("a.b/c" : str, "" : str)
  ∧ os_path.splitext "a/b.tar.gz" = ("a/b.tar" : str, ".gz" : str)
  ∧ os_path.splitext "dir.d/.x.png" = ("dir.d/.x" : str, ".png" : str)
  ∧ os_path.splitext "x." = ("x" : str, "." : str).
Proof. repeat split. Qed.

Example join_samples :
  os_path.join "lab" "img.png" = ("lab/img.png" : str)
  ∧ os_path.join "lab/" "img.png" = ("lab/img.png" : str)
  ∧ os_path.join "lab" "/abs.png" = ("/abs.png" : str)
  ∧ os_path.join "" "x" = ("x" : str).
Proof. repeat split. Qed.

Example b64encode_samples :
  base64.b64encode [Byte.x00; Byte.xff; Byte.x10; Byte.x61] = ("AP8QYQ==" : str)
  ∧ base64.b64encode [Byte.x61; Byte.x62] = ("YWI=" : str)
  ∧ base64.b64encode [Byte.x61] = ("YQ==" : str)
  ∧ base64.b64encode [] = ("" : str).
Proof. repeat split. Qed.

(** The table of two columns with the header [A | Long], the body row
[1 | 2] and the second column aligned left. The two cells of a row
share the flags of the row, so the first column is ruled as the second. *)
Example table_sample :
  MdRenderer.table 20
    (MdRenderer.table_row
       (MdRenderer.table_cell "A"
          [("header" : str, MdRenderer.FBool true); ("align" : str, MdRenderer.FNone)]
        ++ MdRenderer.table_cell "Long"
             [("header" : str, MdRenderer.FBool true);
              ("align" : str, MdRenderer.FStr "left")]))
    (MdRenderer.table_row
       (MdRenderer.table_cell "1"
          [("header" : str, MdRenderer.FBool false); ("align" : str, MdRenderer.FNone)]
        ++ MdRenderer.table_cell "2"
             [("header" : str, MdRenderer.FBool false);
              ("align" : str, MdRenderer.FStr "left")]))
  = Some (Ok ("A | Long" ++ [LF] ++ ":- | :---" ++ [LF] ++ "1 | 2   " ++ [LF])).
Proof. vm_compute. reflexivity. Qed.

(** ** Codec: decoding what the encoders wrote *)

Section Numerals.

Lemma to_uint_not_nil n : Nat.to_uint n ≠ Decimal.Nil.
Proof.
  unfold Nat.to_uint. intros E. apply rev_nil_inv in E. revert E.
  induction n as [|n IH]; [discriminate|].
  cbn [Nat.to_little_uint]. rewrite Unsigned.to_little_uint_succ.
  destruct (Nat.to_little_uint n (Decimal.D0 Decimal.Nil)); discriminate.
Qed.

Lemma uint_digits_are_digits d : Forall (λ c, Py.is_digit c = true) (Py.uint_digits d).
Proof. induction d; simpl; constructor; auto. Qed.

Lemma digit_not_colon c : Py.is_digit c = true → Ascii.eqb c ":" = false.
Proof.
  intros Hd. destruct (Ascii.eqb_spec c ":") as [->|]; [|reflexivity].
  vm_compute in Hd. discriminate.
Qed.

Lemma digit_not_space c : Py.is_digit c = true → Py.is_space c = false.
Proof.
  unfold Py.is_digit, Py.is_space. intros Hd.
  apply andb_true_iff in Hd as [H1 H2].
  apply Nat.leb_le in H1, H2.
  repeat (apply orb_false_iff; split);
    try apply andb_false_iff; try (apply Nat.eqb_neq; lia).
  right. apply Nat.leb_gt. lia.
Qed.

Lemma digit_not_sign c :
  Py.is_digit c = true → Ascii.eqb c "+" = false ∧ Ascii.eqb c "-" = false.
Proof.
  intros Hd. split.
  - destruct (Ascii.eqb_spec c "+") as [->|]; [|reflexivity].
    vm_compute in Hd. discriminate.
  - destruct (Ascii.eqb_spec c "-") as [->|]; [|reflexivity].
    vm_compute in Hd. discriminate.
Qed.

Lemma scan_uint_digits d prev a :
  Ascii.eqb prev "_" = false →
  Py.scan_digits (Py.uint_digits d) prev (Z.of_nat a)
  = Some (Z.of_nat (Nat.of_uint_acc d a), []).
Proof.
  revert prev a. induction d; intros prev a Hprev; cbn [Py.uint_digits];
    [simpl; rewrite Hprev; reflexivity | ..];
    cbn [Py.scan_digits Nat.of_uint_acc];
    (lazymatch goal with
     | |- context [Py.is_digit (Py.digit_char ?k)] =>
         change (Py.is_digit (Py.digit_char k)) with true;
         change (Py.digit_value (Py.digit_char k)) with (Z.of_nat k)
     end);
    cbv iota; rewrite Nat.tail_mul_spec;
    (lazymatch goal with
     | |- Py.scan_digits _ _ ?acc = Some (Z.of_nat (Nat.of_uint_acc _ ?b), _) =>
         replace acc with (Z.of_nat b) by lia
     end);
    apply IHd; reflexivity.
Qed.

Lemma int_uint_digits d :
  d ≠ Decimal.Nil → Py.int (Py.uint_digits d) = Ok (Z.of_nat (Nat.of_uint d)).
Proof.
  intros Hnil.
  pose proof (uint_digits_are_digits d) as Hall.
  pose proof (scan_uint_digits d zero 0 eq_refl) as Hscan.
  destruct (Py.uint_digits d) as [|c s] eqn:E.
  { destruct d; simpl in E; congruence. }
  apply Forall_cons in Hall as [Hc _].
  destruct (digit_not_sign c Hc) as [Hplus Hminus].
  unfold Py.int. cbn [Py.lstrip_space].
  rewrite (digit_not_space c Hc), Hplus, Hminus, Hc.
  change (Z.of_nat 0) with 0%Z in Hscan. rewrite Hscan.
  cbn [Py.lstrip_space]. f_equal. unfold Nat.of_uint. lia.
Qed.

Lemma int_str_of_nat n : Py.int (Py.str_of_nat n) = Ok (Z.of_nat n).
Proof.
  unfold Py.str_of_nat. rewrite int_uint_digits by apply to_uint_not_nil.
  rewrite Unsigned.of_to. reflexivity.
Qed.

Lemma str_of_nat_digits n : Forall (λ c, Py.is_digit c = true) (Py.str_of_nat n).
Proof. apply uint_digits_are_digits. Qed.

End Numerals.

Section Slices.

Lemma bound_nat len (i : nat) : Py.bound len (Z.of_nat i) = Nat.min i len.
Proof.
  unfold Py.bound. destruct (Z.ltb_spec (Z.of_nat i) 0); [lia|].
  rewrite Nat2Z.id. reflexivity.
Qed.

Lemma find_first c (l1 l2 : str) :
  Forall (λ x, Ascii.eqb x c = false) l1 →
  Py.find c (l1 ++ c :: l2) = Z.of_nat (length l1).
Proof.
  induction 1 as [|x l1 Hx _ IH]; simpl.
  - rewrite Ascii.eqb_refl. reflexivity.
  - rewrite Hx, IH. destruct (Z.ltb_spec (Z.of_nat (length l1)) 0); lia.
Qed.

Lemma find_absent c (s : str) :
  Forall (λ x, Ascii.eqb x c = false) s → Py.find c s = (-1)%Z.
Proof.
  induction 1 as [|x s Hx _ IH]; simpl; [reflexivity|].
  rewrite Hx, IH. reflexivity.
Qed.

Lemma slice_middle (a b c : str) :
  Py.slice (a ++ b ++ c) (Z.of_nat (length a)) (Z.of_nat (length a + length b)) = b.
Proof.
  unfold Py.slice. rewrite !bound_nat, !length_app.
  rewrite !Nat.min_l by lia.
  rewrite drop_app_length.
  replace (length a + length b - length a) with (length b) by lia.
  apply take_app_length.
Qed.

Lemma take_min {A} (l : list A) n : take (Nat.min n (length l)) l = take n l.
Proof.
  destruct (Nat.le_ge_cases n (length l)).
  - rewrite Nat.min_l by lia. reflexivity.
  - rewrite Nat.min_r by lia. rewrite firstn_all, take_ge by lia. reflexivity.
Qed.

Lemma drop_min {A} (l : list A) n : drop (Nat.min n (length l)) l = drop n l.
Proof.
  destruct (Nat.le_ge_cases n (length l)).
  - rewrite Nat.min_l by lia. reflexivity.
  - rewrite Nat.min_r by lia. rewrite drop_all, drop_ge by lia. reflexivity.
Qed.

(** A slice that starts where [b] starts and asks for [n] characters
    gets as many as [b] has. *)
Lemma slice_tail (a b : str) (n : nat) :
  Py.slice (a ++ b) (Z.of_nat (length a)) (Z.of_nat (length a + n)) = take n b.
Proof.
  unfold Py.slice. rewrite !bound_nat, !length_app.
  rewrite (Nat.min_l (length a)) by lia.
  rewrite drop_app_length.
  replace (Nat.min (length a + n) (length a + length b) - length a)
    with (Nat.min n (length b)) by lia.
  apply take_min.
Qed.

Lemma slice_from_tail (a b : str) (n : nat) :
  Py.slice_from (a ++ b) (Z.of_nat (length a + n)) = drop n b.
Proof.
  unfold Py.slice_from. rewrite bound_nat, length_app.
  replace (Nat.min (length a + n) (length a + length b))
    with (length a + Nat.min n (length b)) by lia.
  rewrite drop_app_add. apply drop_min.
Qed.

End Slices.

Section Codec.

(** Decoding a buffer that opens with a tag, a decimal length [n] and
    a colon: the payload is the [n] characters that follow, or all that
    is left when there are fewer. *)
Lemma get_block_prefixed (tag : ascii) (n : nat) (body : str) :
  tag ≠ ":"%char →
  MdRenderer.get_block ([tag] ++ Py.str_of_nat n ++ ":" ++ body)
  = Ok (drop n body, [tag], take n body).
Proof.
  intros Htag.
  assert (Ascii.eqb tag ":" = false) as Htag'
    by (destruct (Ascii.eqb_spec tag ":"); congruence).
  pose proof (str_of_nat_digits n) as Hd.
  set (ds := Py.str_of_nat n) in *.
  assert (Forall (λ x, Ascii.eqb x ":" = false) ds) as Hnc
    by (eapply Forall_impl; [exact Hd | exact digit_not_colon]).
  unfold MdRenderer.get_block.
  change ([tag] ++ ds ++ ":" ++ body) with (tag :: (ds ++ ":"%char :: body)).
  cbn [Py.getitem lookup list_lookup rbind Py.find].
  rewrite Htag', (find_first _ _ _ Hnc).
  destruct (Z.ltb_spec (Z.of_nat (length ds)) 0) as [|_]; [lia|].
  destruct (Z.leb_spec (Z.of_nat (length ds) + 1) 0) as [|_]; [lia|].
  replace (Py.slice (tag :: ds ++ ":"%char :: body) 1 (Z.of_nat (length ds) + 1))
    with ds.
  2:{ symmetry.
      change (tag :: ds ++ ":"%char :: body) with ([tag] ++ ds ++ (":"%char :: body)).
      replace (Z.of_nat (length ds) + 1)%Z
        with (Z.of_nat (length [tag] + length ds)) by (simpl; lia).
      apply (slice_middle [tag] ds). }
  subst ds. rewrite int_str_of_nat. cbn [rbind].
  set (ds := Py.str_of_nat n).
  set (pre := tag :: ds ++ [":"%char]).
  assert (tag :: ds ++ ":"%char :: body = pre ++ body) as ->
    by (subst pre; simpl; rewrite <- app_assoc; reflexivity).
  assert (length pre = S (S (length ds))) as Hpre
    by (subst pre; simpl; rewrite length_app; simpl; lia).
  replace (Z.of_nat (length ds) + 1 + 1)%Z with (Z.of_nat (length pre)) by lia.
  replace (Z.of_nat (length pre) + Z.of_nat n)%Z
    with (Z.of_nat (length pre + n)) by lia.
  rewrite slice_tail, slice_from_tail. reflexivity.
Qed.

Lemma tag_not_colon t : t ∈ MdRenderer.tags → t ≠ ":"%char.
Proof.
  unfold MdRenderer.tags. intros Ht ->.
  repeat (apply elem_of_cons in Ht as [Ht|Ht]; [discriminate|]).
  inversion Ht.
Qed.

Lemma get_block_chunk t (p rest : str) :
  t ≠ ":"%char →
  MdRenderer.get_block (MdRenderer.chunk t p ++ rest) = Ok (rest, [t], p).
Proof.
  intros Ht. unfold MdRenderer.chunk.
  replace (([t] ++ Py.str_of_nat (length p) ++ ":" ++ p) ++ rest)
    with ([t] ++ Py.str_of_nat (length p) ++ ":" ++ (p ++ rest))
    by (rewrite <- !app_assoc; reflexivity).
  rewrite get_block_prefixed by assumption.
  rewrite drop_app_length, take_app_length. reflexivity.
Qed.

Lemma blocks_encode_all chunks fuel :
  Forall (λ c, c.1 ∈ MdRenderer.tags) chunks →
  length chunks ≤ fuel →
  MdRenderer.blocks fuel (encode_all chunks)
  = Some (Ok (map (λ c, ([c.1], c.2)) chunks)).
Proof.
  intros Hall. revert fuel.
  induction Hall as [|[t p] chunks Ht _ IH]; intros fuel Hfuel.
  - destruct fuel; reflexivity.
  - destruct fuel as [|fuel]; [simpl in Hfuel; lia|].
    simpl in Hfuel, Ht.
    change (encode_all ((t, p) :: chunks))
      with (MdRenderer.chunk t p ++ encode_all chunks).
    pose proof (get_block_chunk t p (encode_all chunks) (tag_not_colon t Ht)) as E.
    replace (MdRenderer.chunk t p ++ encode_all chunks)
      with (t :: (Py.str_of_nat (length p) ++ ":" ++ p) ++ encode_all chunks) in *
      by reflexivity.
    cbn [MdRenderer.blocks]. rewrite E, IH by lia. reflexivity.
Qed.

(** The loop of [list] is the loop of [blocks] with the [l] chunks
rendered as they come. *)
Lemma list_loop_blocks fuel (text r : str) ordered :
  MdRenderer.list_loop fuel text r ordered
  = match MdRenderer.blocks fuel text with
    | Some (Ok bs) =>
        Some (Ok (foldl (λ r (b : str * str), if decide (b.1 = ("l" : str))
                                then r ++ (if ordered then "# " ++ b.2
                                           else "* " ++ b.2) ++ [LF]
                                else r) r bs))
    | Some (Raise e) => Some (Raise e)
    | None => None
    end.
Proof.
  revert text r. induction fuel as [|fuel IH]; intros text r.
  - destruct text; reflexivity.
  - destruct text as [|c text]; [reflexivity|].
    cbn [MdRenderer.list_loop MdRenderer.blocks].
    destruct (MdRenderer.get_block (c :: text)) as [[[text' type] t]|e];
      [|reflexivity].
    rewrite IH.
    destruct (MdRenderer.blocks fuel text') as [[bs|e]|]; reflexivity.
Qed.

(** [list] gives every item written by [list_item] its own line, in order. *)
Lemma list_renders_items (items : list str) fuel ordered :
  length items ≤ fuel →
  MdRenderer.list_ fuel (concat (map MdRenderer.list_item items)) ordered
  = Some (Ok (concat (map (λ t, (if ordered then "# " ++ t else "* " ++ t) ++ [LF])
                        items))).
Proof.
  intros Hfuel. unfold MdRenderer.list_. rewrite list_loop_blocks.
  pose proof (blocks_encode_all (map (λ t, ("l"%char, t)) items) fuel) as E.
  unfold encode_all in E. rewrite map_map in E. cbn [fst snd] in E.
  change (λ x : str, MdRenderer.chunk "l" x) with MdRenderer.list_item in E.
  rewrite E; clear E.
  - f_equal. f_equal. clear Hfuel.
    lazymatch goal with
    | |- foldl ?F [] (map ?G (map ?H items)) = concat (map ?L items) =>
        assert (∀ r : str, foldl F r (map G (map H items))
                           = r ++ concat (map L items)) as Hf
    end.
    { induction items as [|t items IH]; intros r.
      - symmetry. apply app_nil_r.
      - cbn [map foldl concat fst snd].
        case_decide as Hl; [|exfalso; apply Hl; reflexivity].
        rewrite IH, <- !app_assoc. reflexivity. }
    apply (Hf []).
  - apply Forall_map, Forall_true. intros t. unfold MdRenderer.tags. set_solver.
  - rewrite length_map. exact Hfuel.
Qed.

End Codec.

(** C3. For a tag among [l], [r], [c], [f] and any payload, digits and
    colons included, decoding one chunk of the encoding gives the tag and
    the payload back and leaves nothing; decoding the concatenation of the
    encodings of a sequence of such chunks, chunk after chunk, gives the
    sequence back in order. The encoders [list_item] and [table_row] write
    exactly these chunks. *)
Theorem codec_round_trip (t : ascii) (p : str) (chunks : list (ascii * str))
    (fuel : nat) :
  t ∈ MdRenderer.tags →
  Forall (λ c, c.1 ∈ MdRenderer.tags) chunks →
  length chunks ≤ fuel →
  MdRenderer.get_block (MdRenderer.chunk t p) = Ok ([], [t], p)
  ∧ MdRenderer.blocks fuel (encode_all chunks)
    = Some (Ok (map (λ c, ([c.1], c.2)) chunks))
  ∧ MdRenderer.list_item p = MdRenderer.chunk "l" p
  ∧ MdRenderer.table_row p = MdRenderer.chunk "r" p.
Proof.
  intros Ht Hall Hfuel. repeat split.
  - rewrite <- (app_nil_r (MdRenderer.chunk t p)).
    apply get_block_chunk, tag_not_colon, Ht.
  - apply blocks_encode_all; assumption.
Qed.

Lemma codec_round_trip_witness :
  MdRenderer.get_block (MdRenderer.chunk "c" "1:2") = Ok ([], ["c"%char], "1:2" : str)
  ∧ MdRenderer.blocks 2 (encode_all [("l"%char, "a:1" : str); ("f"%char, "x=7" : str)])
    = Some (Ok [("l" : str, "a:1" : str); ("f" : str, "x=7" : str)]).
Proof.
  destruct (codec_round_trip "c" "1:2"
              [("l"%char, "a:1" : str); ("f"%char, "x=7" : str)] 2)
    as (H1 & H2 & _).
  - unfold MdRenderer.tags. set_solver.
  - repeat constructor; unfold MdRenderer.tags; simpl; set_solver.
  - simpl. lia.
  - split; [exact H1 | exact H2].
Defined.

(** ** Codec: buffers no encoder wrote *)

Section Malformed.

Lemma get_block_no_colon (text : str) :
  text ≠ [] →
  Forall (λ x, x ≠ ":"%char) text →
  MdRenderer.get_block text = Ok ([], [], []).
Proof.
  intros Hne Hall. destruct text as [|c text]; [congruence|].
  unfold MdRenderer.get_block. cbn [Py.getitem lookup list_lookup rbind].
  rewrite find_absent; [reflexivity|].
  eapply Forall_impl; [exact Hall|]. intros x Hx. simpl in Hx.
  destruct (Ascii.eqb_spec x ":"); congruence.
Qed.

Lemma get_block_truncated (tag : ascii) (n : nat) (body : str) :
  tag ≠ ":"%char →
  length body < n →
  MdRenderer.get_block ([tag] ++ Py.str_of_nat n ++ ":" ++ body)
  = Ok ([], [tag], body).
Proof.
  intros Htag Hlen. rewrite get_block_prefixed by assumption.
  rewrite drop_ge, take_ge by lia. reflexivity.
Qed.

Lemma list_loop_unfold fuel c (s r : str) ordered :
  MdRenderer.list_loop (S fuel) (c :: s) r ordered
  = match MdRenderer.get_block (c :: s) with
    | Raise e => Some (Raise e)
    | Ok (text', type, t) =>
        MdRenderer.list_loop fuel text'
          (if decide (type = "l")
           then r ++ (if ordered then "# " ++ t else "* " ++ t) ++ [LF]
           else r)
          ordered
    end.
Proof. reflexivity. Qed.

Lemma rows_loop_unfold n fuel c (s : str) h rows :
  MdRenderer.rows_loop n (S fuel) (c :: s) h rows
  = match MdRenderer.get_block (c :: s) with
    | Raise e => Some (Raise e)
    | Ok (text', type1, t) =>
        if decide (type1 = "r") then
          match MdRenderer.row_loop n t (h ++ [∅]) (length h) [] with
          | Some (Ok (h', cols)) =>
              MdRenderer.rows_loop n fuel text' h' (rows ++ [cols])
          | Some (Raise e) => Some (Raise e)
          | None => None
          end
        else MdRenderer.rows_loop n fuel text' h rows
    end.
Proof. reflexivity. Qed.

(** A chunk whose declared length is not negative is left behind: the
remainder is shorter than the buffer. *)
Lemma get_block_progress (text rest type t : str) (l : Z) :
  (0 < Py.find ":" text)%Z →
  Py.int (Py.slice text 1 (Py.find ":" text)) = Ok l →
  (0 <= l)%Z →
  MdRenderer.get_block text = Ok (rest, type, t) →
  length rest < length text.
Proof.
  intros Hp Hint Hl. unfold MdRenderer.get_block.
  destruct text as [|c text]; [discriminate|].
  remember (Py.find ":" (c :: text)) as p eqn:Ep. clear Ep.
  cbn [Py.getitem lookup list_lookup rbind].
  destruct (Z.leb_spec p 0) as [|_]; [lia|].
  rewrite Hint. cbn [rbind]. intros [= <- _ _].
  unfold Py.slice_from, Py.bound. rewrite length_drop.
  destruct (Z.ltb_spec (p + 1 + l) 0) as [|_]; [lia|].
  cbn [length]. lia.
Qed.

End Malformed.

(** C4, the claim as stated fails: a buffer whose declared length (9)
    overruns the three characters left is decoded to those three
    characters, and a buffer without a colon is decoded to three empty
    strings; neither raises. *)
Lemma malformed_chunk_raises_nothing :
  MdRenderer.get_block "l9:abc" = Ok ("" : str, "l" : str, "abc" : str)
  ∧ MdRenderer.get_block "l9abc" = Ok ("" : str, "" : str, "" : str).
Proof. split; vm_compute; reflexivity. Qed.

(** C4, amended. A malformed buffer raises no decode error. A non-empty
    buffer with no colon decodes to the three empty strings; a buffer
    whose declared length overruns what follows the colon decodes to the
    tag and the shortened payload, everything that is left, with an empty
    remainder. *)
Theorem malformed_chunk_decodes_silently (text : str) (tag : ascii) (n : nat)
    (body : str) :
  text ≠ [] →
  Forall (λ x, x ≠ ":"%char) text →
  tag ≠ ":"%char →
  length body < n →
  MdRenderer.get_block text = Ok ([], [], [])
  ∧ MdRenderer.get_block ([tag] ++ Py.str_of_nat n ++ ":" ++ body)
    = Ok ([], [tag], body).
Proof.
  intros. split; [apply get_block_no_colon | apply get_block_truncated]; assumption.
Qed.

Lemma malformed_chunk_decodes_silently_witness :
  MdRenderer.get_block "l9abc" = Ok ([], [], [])
  ∧ MdRenderer.get_block (["l"%char] ++ Py.str_of_nat 9 ++ ":" ++ "abc")
    = Ok ([], ["l"%char], "abc" : str).
Proof.
  apply (malformed_chunk_decodes_silently "l9abc" "l" 9 "abc").
  - discriminate.
  - repeat constructor; discriminate.
  - discriminate.
  - simpl. lia.
Defined.

(** C10, the code against the claim: the chunk [l-4:] declares the
    length -4, its remainder is the whole buffer again, and the loops of
    [list] and [table] never get past it, whatever the fuel. *)
Theorem negative_length_makes_no_progress :
  MdRenderer.get_block "l-4:" = Ok ("l-4:" : str, "l" : str, "" : str)
  ∧ (∀ fuel ordered, MdRenderer.list_ fuel "l-4:" ordered = None)
  ∧ (∀ n, MdRenderer.table n "r-4:" "" = None).
Proof.
  assert (MdRenderer.get_block "l-4:" = Ok ("l-4:" : str, "l" : str, "" : str)) as El
    by (vm_compute; reflexivity).
  assert (MdRenderer.get_block "r-4:" = Ok ("r-4:" : str, "r" : str, "" : str)) as Er
    by (vm_compute; reflexivity).
  split; [exact El|]. split.
  - intros fuel ordered. unfold MdRenderer.list_. generalize ([] : str) as r.
    induction fuel as [|fuel IH]; intros r; [reflexivity|].
    change ("l-4:" : str) with ("l"%char :: ("-4:" : str)) in *.
    rewrite list_loop_unfold, El. apply IH.
  - intros n. unfold MdRenderer.table, MdRenderer.table_rows.
    assert (∀ fuel h rows, MdRenderer.rows_loop n fuel "r-4:" h rows = None) as ->;
      [|reflexivity].
    induction fuel as [|fuel IH]; intros h rows; [reflexivity|].
    change ("r-4:" : str) with ("r"%char :: ("-4:" : str)) in *.
    rewrite rows_loop_unfold, Er.
    destruct (decide (("r" : str) = "r")) as [_|]; [|congruence].
    destruct n; apply IH.
Qed.

(** ** Math: what the rules capture is rendered back verbatim *)

Section Math.

Lemma startswith_prefix (s p : str) :
  Py.startswith s p = true → s = p ++ drop (length p) s.
Proof.
  revert s. induction p as [|c p IH]; intros s; [reflexivity|].
  destruct s as [|x s]; simpl; [discriminate|].
  intros H. apply andb_true_iff in H as [Hx Hp].
  apply Ascii.eqb_eq in Hx as ->. f_equal. apply IH, Hp.
Qed.

Lemma split_at_first_sound (pat s before after : str) :
  split_at_first pat s = Some (before, after) → s = before ++ pat ++ after.
Proof.
  revert before. induction s as [|c s IH]; intros before.
  - unfold split_at_first. destruct (Py.startswith [] pat) eqn:E; [|discriminate].
    intros [= <- <-]. apply (startswith_prefix _ _ E).
  - cbn [split_at_first]. destruct (Py.startswith (c :: s) pat) eqn:E.
    + intros [= <- <-]. apply (startswith_prefix _ _ E).
    + destruct (split_at_first pat s) as [[b a]|]; [|discriminate].
      intros [= <- <-]. simpl. f_equal. apply IH. reflexivity.
Qed.

Lemma block_math_body_sound (s body rest : str) :
  MathBlockMixin.block_math_body s = Some (body, rest) →
  s = body ++ "$$" ++ rest.
Proof.
  revert body. induction s as [|c s IH]; intros body; simpl; [discriminate|].
  destruct (Ascii.eqb_spec c "$") as [->|_].
  - destruct s as [|c' s]; [discriminate|].
    destruct (Ascii.eqb_spec c' "$") as [->|_]; [|discriminate].
    intros [= <- <-]. reflexivity.
  - destruct (MathBlockMixin.block_math_body s) as [[b r]|]; [|discriminate].
    intros [= <- <-]. simpl. f_equal. apply IH. reflexivity.
Qed.

Lemma math_rest_sound (s more rest : str) :
  MathInlineMixin.math_rest s = Some (more, rest) → s = more ++ "$" ++ rest.
Proof.
  revert more. induction s as [|c s IH]; intros more; simpl; [discriminate|].
  destruct (Ascii.eqb_spec c "$") as [->|_].
  - intros [= <- <-]. reflexivity.
  - destruct (Ascii.eqb c LF); [discriminate|].
    destruct (MathInlineMixin.math_rest s) as [[m r]|]; [|discriminate].
    intros [= <- <-]. simpl. f_equal. apply IH. reflexivity.
Qed.

Lemma lower_run_sound (s : str) :
  s = (MathBlockMixin.lower_run s).1 ++ (MathBlockMixin.lower_run s).2.
Proof.
  induction s as [|c s IH]; simpl; [reflexivity|].
  destruct (MathBlockMixin.is_lower c); [|reflexivity].
  destruct (MathBlockMixin.lower_run s) as [run rest]. simpl in *. congruence.
Qed.

Lemma render_block_math_verbatim (s out rest : str) :
  MarkdownWithMath.render_block_math s = Some (out, rest) → out ++ rest = s.
Proof.
  unfold MarkdownWithMath.render_block_math, MathBlockMixin.block_math.
  destruct (Py.startswith s "$$") eqn:E; [|discriminate].
  apply startswith_prefix in E.
  destruct (MathBlockMixin.block_math_body (drop 2 s)) as [[g r]|] eqn:B;
    [|discriminate].
  apply block_math_body_sound in B. intros [= <- <-].
  rewrite E. simpl length. rewrite B.
  unfold MarkdownWithMath.output, MathBlockMixin.parse_block_math,
    MathRendererMixin.block_math.
  rewrite <- !app_assoc. reflexivity.
Qed.

Lemma render_block_latex_verbatim (s out rest : str) :
  MarkdownWithMath.render_block_latex s = Some (out, rest) → out ++ rest = s.
Proof.
  unfold MarkdownWithMath.render_block_latex, MathBlockMixin.block_latex.
  destruct (Py.startswith s "\begin{") eqn:E; [|discriminate].
  apply startswith_prefix in E. simpl length in E.
  pose proof (lower_run_sound (drop 7 s)) as Hrun.
  destruct (MathBlockMixin.lower_run (drop 7 s)) as [letters s1].
  simpl in Hrun.
  assert (∃ star s2,
             (match s1 with
              | c :: r => if Ascii.eqb c "*" then (["*"%char], r) else ([], s1)
              | [] => ([], s1)
              end) = (star, s2) ∧ s1 = star ++ s2) as (star & s2 & -> & Hs1).
  { destruct s1 as [|c r]; [by exists [], []|].
    destruct (Ascii.eqb_spec c "*") as [->|_]; [by exists ["*"%char], r|].
    by exists [], (c :: r). }
  destruct s2 as [|c s3]; [discriminate|].
  destruct (Ascii.eqb_spec c "}") as [->|_]; [|discriminate].
  destruct (split_at_first ("\end{" ++ (letters ++ star) ++ "}") s3)
    as [[text r]|] eqn:S; [|discriminate].
  apply split_at_first_sound in S. intros [= <- <-].
  rewrite E, Hrun, Hs1, S.
  unfold MarkdownWithMath.output, MathBlockMixin.parse_block_latex,
    MathRendererMixin.block_latex.
  rewrite <- !app_assoc. reflexivity.
Qed.

Lemma render_math_verbatim (s out rest : str) :
  MarkdownWithMath.render_math s = Some (out, rest) → out ++ rest = s.
Proof.
  unfold MarkdownWithMath.render_math, MathInlineMixin.math.
  destruct s as [|d [|c s]]; try discriminate.
  destruct (Ascii.eqb_spec d "$") as [->|_]; [|discriminate].
  destruct (negb (Ascii.eqb c LF)); [|discriminate]. cbn [andb].
  destruct (MathInlineMixin.math_rest s) as [[m r]|] eqn:M; [|discriminate].
  apply math_rest_sound in M. intros [= <- <-]. rewrite M.
  unfold MathInlineMixin.output_math, MathRendererMixin.math.
  rewrite <- !app_assoc. reflexivity.
Qed.

End Math.

(** C5. Block math renders as [$$text$$], a named environment as
    [\begin{name}text\end{name}] and inline math as [$text$], the text
    being passed through untouched. Whenever one of the three math rules
    fires on an input, rendering what it captured reproduces the matched
    source verbatim, in front of the input that is left; on [$$x^2$$],
    [$y$] and [\begin{align}z\end{align}] the rules fire and the output is
    the input. *)
Theorem math_round_trip (s out rest name text : str) :
  MarkdownWithMath.render_block_math s = Some (out, rest)
  ∨ MarkdownWithMath.render_block_latex s = Some (out, rest)
  ∨ MarkdownWithMath.render_math s = Some (out, rest) →
  out ++ rest = s
  ∧ MathRendererMixin.block_math text = "$$" ++ text ++ "$$"
  ∧ MathRendererMixin.block_latex name text
    = "\begin{" ++ name ++ "}" ++ text ++ "\end{" ++ name ++ "}"
  ∧ MathRendererMixin.math text = "$" ++ text ++ "$"
  ∧ MarkdownWithMath.render_block_math "$$x^2$$" = Some ("$$x^2$$" : str, [])
  ∧ MarkdownWithMath.render_math "$y$" = Some ("$y$" : str, [])
  ∧ MarkdownWithMath.render_block_latex "\begin{align}z\end{align}"
    = Some ("\begin{align}z\end{align}" : str, []).
Proof.
  intros H. split; [|repeat split].
  destruct H as [H|[H|H]];
    eauto using render_block_math_verbatim, render_block_latex_verbatim,
      render_math_verbatim.
Qed.

Lemma math_round_trip_witness :
  MarkdownWithMath.render_block_math "$$a+b$$tail"
  = Some ("$$a+b$$" : str, "tail" : str)
  ∧ ("$$a+b$$" : str) ++ ("tail" : str) = ("$$a+b$$tail" : str).
Proof.
  assert (MarkdownWithMath.render_block_math "$$a+b$$tail"
          = Some ("$$a+b$$" : str, "tail" : str)) as H
    by (vm_compute; reflexivity).
  split; [exact H|].
  exact (proj1 (math_round_trip _ _ _ [] [] (or_introl H))).
Defined.

(** ** Rule order of the inline lexer *)

(** C6, the claim as stated fails: in the rule list of the math lexer
    [math] stands at position 0 and [escape] after it. *)
Lemma math_rule_is_not_last : ¬ math_tried_last MathInlineLexer.default_rules.
Proof.
  intros H.
  specialize (H 0 1 ("escape" : str) eq_refl eq_refl).
  assert (1 < 0); [apply H; discriminate | lia].
Qed.

(** C6, amended. The inline-math rule has the highest precedence among
    the inline rules: it is the first in the rule list, every other rule
    comes one place later than before, and on any input the lexer takes
    the math rule whenever it matches, turning to the other rules only
    when it does not. *)
Theorem math_rule_tried_first (rules : list str)
    (base : str → str → option (str * str)) (text : str) :
  MathInlineMixin.enable_math rules !! 0 = Some ("math" : str)
  ∧ (∀ j, MathInlineMixin.enable_math rules !! S j = rules !! j)
  ∧ InlineLexer.manipulate (MathInlineLexer.output base)
      (MathInlineMixin.enable_math rules) text
    = match MarkdownWithMath.render_math text with
      | Some (out, rest) => Some ("math" : str, out, rest)
      | None => InlineLexer.manipulate (MathInlineLexer.output base) rules text
      end.
Proof.
  split; [reflexivity|]. split; [reflexivity|].
  unfold MathInlineMixin.enable_math. cbn [InlineLexer.manipulate].
  unfold MathInlineLexer.output at 1.
  destruct (decide (("math" : str) = "math")) as [_|]; [|congruence].
  destruct (MarkdownWithMath.render_math text) as [[out rest]|]; reflexivity.
Qed.

(** ** Image embedding *)

Section Base64.

Lemma alphabet_plain : Forall html_plain base64.alphabet.
Proof.
  unfold html_plain, html_special.
  repeat (constructor; [intros H; repeat (apply elem_of_cons in H as [H|H];
                                           [discriminate|]); inversion H|]).
  constructor.
Qed.

Lemma sextet_plain n : html_plain (base64.sextet n).
Proof.
  unfold base64.sextet.
  destruct (nth_in_or_default (N.to_nat n) base64.alphabet "="%char) as [Hin| ->].
  - pose proof alphabet_plain as Hall. rewrite Forall_forall in Hall.
    apply Hall, list_elem_of_In, Hin.
  - unfold html_plain, html_special. intros H.
    repeat (apply elem_of_cons in H as [H|H]; [discriminate|]). inversion H.
Qed.

Lemma b64encode_plain content : Forall html_plain (base64.b64encode content).
Proof.
  assert (html_plain "="%char) as Heq.
  { unfold html_plain, html_special. intros H.
    repeat (apply elem_of_cons in H as [H|H]; [discriminate|]). inversion H. }
  assert (∀ n content, length content ≤ n →
                       Forall html_plain (base64.b64encode content)) as Hn.
  { clear content. induction n as [|n IH]; intros content Hlen.
    - destruct content; [constructor | simpl in Hlen; lia].
    - destruct content as [|a [|b [|c rest]]]; cbn [base64.b64encode].
      + constructor.
      + repeat (constructor; [first [apply sextet_plain | exact Heq]|]).
        constructor.
      + repeat (constructor; [first [apply sextet_plain | exact Heq]|]).
        constructor.
      + apply Forall_app. split.
        * repeat (constructor; [apply sextet_plain|]). constructor.
        * apply IH. simpl in Hlen. lia. }
  apply (Hn (length content)). lia.
Qed.

Lemma str_plain_literal (s : str) :
  forallb (λ c, negb (bool_decide (c ∈ html_special))) s = true →
  Forall html_plain s.
Proof.
  intros H. rewrite forallb_forall in H. apply Forall_forall.
  intros c Hc. apply list_elem_of_In, H in Hc.
  apply negb_true_iff, bool_decide_eq_false in Hc. exact Hc.
Qed.

End Base64.

Section Embedding.

Context `{Platform}.

Lemma html_image_shape (src : str) title (text : str) width height :
  ∃ tail, EmbedImagesRenderer._html_image src title text width height
          = ("<img src=" ++ [DQUOTE]) ++ escape_link src ++ tail.
Proof.
  unfold EmbedImagesRenderer._html_image.
  destruct text, width, height, title as [[|]|];
    rewrite <- ?app_assoc; eexists; reflexivity.
Qed.

Lemma data_uri_kept mimetype content :
  keeps_data_uris escape_link →
  Forall html_plain mimetype →
  escape_link (EmbedImagesRenderer.data_uri mimetype content)
  = EmbedImagesRenderer.data_uri mimetype content.
Proof.
  intros Hkeep Hmime. apply Hkeep.
  apply Forall_app. split; [exact Hmime|].
  apply Forall_app. split; [|apply b64encode_plain].
  apply str_plain_literal. vm_compute. reflexivity.
Qed.

Lemma exists_true_iff path :
  os_path.exists_ path = true ↔ is_Some (filesystem path).
Proof.
  unfold os_path.exists_. destruct (filesystem path); split;
    intros; eauto; try discriminate.
  destruct H0 as [? ?]. discriminate.
Qed.

(** The three ways out of [_to_data_src] for a local path. *)
Lemma to_data_src_local (s : EmbedImagesRenderer.self) (src : str) :
  urlparse_scheme src = [] →
  let filepath := os_path.join (EmbedImagesRenderer.root_path s) src in
  match filesystem filepath, EmbedImagesRenderer._mime_type src with
  | None, _ =>
      EmbedImagesRenderer._to_data_src s src
      = Raise (OSError ("File '" ++ filepath ++ "' not found."))
  | Some _, None =>
      EmbedImagesRenderer._to_data_src s src
      = Raise (ValueError ("Mimetype for '" ++ src ++ "' unknown."))
  | Some _, Some _ =>
      ∀ msg, EmbedImagesRenderer._to_data_src s src ≠ Raise (OSError msg)
             ∧ EmbedImagesRenderer._to_data_src s src ≠ Raise (ValueError msg)
  end.
Proof.
  intros Hscheme filepath.
  unfold EmbedImagesRenderer._to_data_src. rewrite Hscheme.
  rewrite bool_decide_eq_true_2 by reflexivity. cbn [negb].
  fold filepath. unfold os_path.exists_.
  destruct (filesystem filepath) as [nd|]; [|reflexivity]. cbn [negb].
  destruct (EmbedImagesRenderer._mime_type src) as [mimetype|]; [|reflexivity].
  intros msg.
  destruct (EmbedImagesRenderer.convert_svgs s
            && bool_decide (mimetype = "image/svg+xml")).
  - destruct (svg2png filepath) as [content|]; [|split; discriminate].
    destruct (image_size content) as [[w h]|]; split; discriminate.
  - destruct nd; split; discriminate.
Qed.

End Embedding.

(** C1. For a local source (empty URL scheme) with the extension [.png]
    that names an existing file under the root directory, [image] returns
    markup that contains [data:image/png;base64,] followed by exactly the
    base64 encoding of the bytes of the file. *)
Theorem local_png_embedded `{Platform} (s : EmbedImagesRenderer.self)
    (src : str) (title : option str) (text : str) (content : bytes) :
  urlparse_scheme src = [] →
  filesystem (os_path.join (EmbedImagesRenderer.root_path s) src)
  = Some (File content) →
  (os_path.splitext src).2 = (".png" : str) →
  keeps_data_uris escape_link →
  ∃ before after : str,
    EmbedImagesRenderer.image s src title text
    = Ok (Some (before ++ "data:image/png;base64,"
                  ++ base64.b64encode content ++ after)).
Proof.
  intros Hscheme Hfile Hext Hkeep.
  assert (EmbedImagesRenderer._to_data_src s src
          = Ok (Some (EmbedImagesRenderer.data_uri "image/png" content), None, None))
    as Hsrc.
  { unfold EmbedImagesRenderer._to_data_src. rewrite Hscheme.
    rewrite bool_decide_eq_true_2 by reflexivity. cbn [negb].
    unfold os_path.exists_. rewrite Hfile. cbn [negb].
    unfold EmbedImagesRenderer._mime_type. rewrite Hext.
    change (EmbedImagesRenderer._mime_types !! Py.slice_from ".png" 1)
      with (EmbedImagesRenderer._mime_types !! ("png" : str)).
    replace (EmbedImagesRenderer._mime_types !! ("png" : str))
      with (Some ("image/png" : str)) by (vm_compute; reflexivity).
    rewrite bool_decide_eq_false_2 by discriminate.
    rewrite andb_false_r. reflexivity. }
  unfold EmbedImagesRenderer.image. rewrite Hsrc.
  destruct (html_image_shape (EmbedImagesRenderer.data_uri "image/png" content)
              title text None None) as [tail ->].
  rewrite data_uri_kept;
    [|exact Hkeep | apply str_plain_literal; vm_compute; reflexivity].
  exists ("<img src=" ++ [DQUOTE]), tail. reflexivity.
Qed.

Lemma sample_escape_link_keeps_data_uris : keeps_data_uris Sample.escape_link.
Proof.
  intros u Hu. unfold Sample.escape_link.
  change (Py.startswith
            (filter (λ c, Sample.url_char c = true) (map Sample.lower ("data:" ++ u)))
            "javascript:") with false.
  change (Py.startswith
            (filter (λ c, Sample.url_char c = true) (map Sample.lower ("data:" ++ u)))
            "vbscript:") with false.
  cbn [orb]. unfold Sample.escape_quote.
  change (flat_map Sample.escape_char ("data:" ++ u))
    with ("data:" ++ flat_map Sample.escape_char u).
  f_equal. induction Hu as [|c u Hc _ IH]; [reflexivity|].
  cbn [flat_map]. rewrite IH. unfold Sample.escape_char.
  unfold html_plain, html_special in Hc.
  destruct (Ascii.eqb_spec c "&") as [->|_]; [exfalso; apply Hc; set_solver|].
  destruct (Ascii.eqb_spec c "<") as [->|_]; [exfalso; apply Hc; set_solver|].
  destruct (Ascii.eqb_spec c ">") as [->|_]; [exfalso; apply Hc; set_solver|].
  destruct (Ascii.eqb_spec c DQUOTE) as [->|_]; [exfalso; apply Hc; set_solver|].
  destruct (Ascii.eqb_spec c "'") as [->|_]; [exfalso; apply Hc; set_solver|].
  reflexivity.
Qed.

Lemma local_png_embedded_witness :
  ∃ before after : str,
    EmbedImagesRenderer.image Sample.renderer "img.png" None "alt"
    = Ok (Some (before ++ "data:image/png;base64,"
                  ++ base64.b64encode Sample.png ++ after)).
Proof.
  apply (local_png_embedded Sample.renderer "img.png" None "alt" Sample.png).
  - vm_compute. reflexivity.
  - vm_compute. reflexivity.
  - vm_compute. reflexivity.
  - exact sample_escape_link_keeps_data_uris.
Defined.

(** C2, the code against the claim: for a source with a non-empty URL
    scheme no data URI is substituted and [image] hands back what the
    plain renderer's [image] returns; that method builds the reference
    [![text](src)] with [link] and then drops it, so both return [None]. *)
Theorem remote_image_output_dropped `{Platform} (s : EmbedImagesRenderer.self)
    (src : str) (title : option str) (text : str) :
  urlparse_scheme src ≠ [] →
  EmbedImagesRenderer._to_data_src s src = Ok (None, None, None)
  ∧ EmbedImagesRenderer.image s src title text
    = Ok (MdRenderer.image src title text)
  ∧ MdRenderer.image src title text = None
  ∧ MdRenderer.link src None text true = "![" ++ text ++ "](" ++ src ++ ")".
Proof.
  intros Hscheme.
  assert (EmbedImagesRenderer._to_data_src s src = Ok (None, None, None)) as E.
  { unfold EmbedImagesRenderer._to_data_src.
    rewrite bool_decide_eq_false_2 by exact Hscheme. reflexivity. }
  split; [exact E|]. split; [|split; reflexivity].
  unfold EmbedImagesRenderer.image. rewrite E. reflexivity.
Qed.

Lemma remote_image_output_dropped_witness :
  EmbedImagesRenderer.image Sample.renderer "http://example.com/x.png" None "alt"
  = Ok None
  ∧ MdRenderer.link "http://example.com/x.png" None "alt" true
    = ("![alt](http://example.com/x.png)" : str).
Proof.
  destruct (remote_image_output_dropped Sample.renderer
              "http://example.com/x.png" None "alt") as (_ & H1 & _ & H2).
  - vm_compute. discriminate.
  - split; [exact H1 | exact H2].
Defined.

(** C7. For a source with an empty URL scheme, resolved against the
    root directory: [_to_data_src] raises the not-found [OSError] exactly
    when nothing exists at the resolved path, and, when something does,
    raises the unknown-mimetype [ValueError] exactly when the extension
    is not a key of the MIME table. [image] passes both errors on instead
    of returning anything. *)
Theorem local_image_failures `{Platform} (s : EmbedImagesRenderer.self)
    (src : str) (title : option str) (text : str) :
  urlparse_scheme src = [] →
  let filepath := os_path.join (EmbedImagesRenderer.root_path s) src in
  let not_found := OSError ("File '" ++ filepath ++ "' not found.") in
  let unknown := ValueError ("Mimetype for '" ++ src ++ "' unknown.") in
  (os_path.exists_ filepath = false
   ↔ ∃ msg, EmbedImagesRenderer._to_data_src s src = Raise (OSError msg))
  ∧ (os_path.exists_ filepath = false
     → EmbedImagesRenderer._to_data_src s src = Raise not_found
       ∧ EmbedImagesRenderer.image s src title text = Raise not_found)
  ∧ (os_path.exists_ filepath = true →
     (EmbedImagesRenderer._mime_type src = None
      ↔ ∃ msg, EmbedImagesRenderer._to_data_src s src = Raise (ValueError msg))
     ∧ (EmbedImagesRenderer._mime_type src = None
        → EmbedImagesRenderer._to_data_src s src = Raise unknown
          ∧ EmbedImagesRenderer.image s src title text = Raise unknown)).
Proof.
  intros Hscheme filepath not_found unknown.
  pose proof (to_data_src_local s src Hscheme) as Hcases.
  cbv zeta in Hcases. fold filepath in Hcases.
  unfold os_path.exists_, EmbedImagesRenderer.image.
  destruct (filesystem filepath) as [nd|];
    [destruct (EmbedImagesRenderer._mime_type src) as [mimetype|]|].
  - split; [|split].
    + split; [discriminate|]. intros [msg E]. destruct (Hcases msg); congruence.
    + discriminate.
    + intros _. split; [|discriminate].
      split; [discriminate|]. intros [msg E]. destruct (Hcases msg); congruence.
  - rewrite Hcases. split; [|split].
    + split; [discriminate|]. intros [msg E]. discriminate.
    + discriminate.
    + intros _. split; [|intros _; split; reflexivity].
      split; [intros _; eexists; reflexivity | reflexivity].
  - rewrite Hcases. split; [|split].
    + split; [intros _; eexists; reflexivity | reflexivity].
    + intros _. split; reflexivity.
    + discriminate.
Qed.

Lemma local_image_failures_witness :
  EmbedImagesRenderer.image Sample.renderer "none.png" None "alt"
  = Raise (OSError "File 'lab/none.png' not found.")
  ∧ EmbedImagesRenderer.image Sample.renderer "img.xyz" None "alt"
    = Raise (ValueError "Mimetype for 'img.xyz' unknown.").
Proof.
  split.
  - apply (local_image_failures Sample.renderer "none.png" None "alt");
      vm_compute; reflexivity.
  - apply (local_image_failures Sample.renderer "img.xyz" None "alt");
      vm_compute; reflexivity.
Defined.

(** ** Tables: the column arrays *)

Section Columns.

Variable h : MdRenderer.heap.

Lemma columns_init_sized : sized MdRenderer.columns_init.
Proof. split; apply length_replicate. Qed.

Lemma list_get_in {A} (l : list A) i :
  i < length l → ∃ x, MdRenderer.list_get l i = Ok x ∧ l !! i = Some x.
Proof.
  intros Hi. unfold MdRenderer.list_get.
  destruct (lookup_lt_is_Some_2 l i Hi) as [x ->]. eauto.
Qed.

Lemma list_set_in {A} (l : list A) i x :
  i < length l → MdRenderer.list_set l i x = Ok (<[i:=x]> l).
Proof.
  intros Hi. unfold MdRenderer.list_set.
  destruct (decide (i < length l)); [reflexivity | contradiction].
Qed.

(** A cell measured inside the arrays: the pass goes on, or stops at
    the first character of an empty [align] value. *)
Lemma measure_cell_in_bounds i col c :
  sized c → i < 100 →
  (∃ c', MdRenderer.measure_cell h i col c = Ok c' ∧ sized c'
         ∧ MdRenderer.colscount c' = MdRenderer.colscount c)
  ∨ (MdRenderer.measure_cell h i col c = Raise (IndexError OfString)
     ∧ empty_align h col).
Proof.
  intros [Hcm Hal] Hi. unfold MdRenderer.measure_cell.
  destruct (list_get_in (MdRenderer.colmax c) i) as (w & -> & _); [lia|].
  cbn [rbind]. rewrite list_set_in by lia. cbn [rbind].
  unfold empty_align.
  destruct (MdRenderer.deref h (MdRenderer.flags col) !! ("align" : str))
    as [[|a v]|].
  - right. split; reflexivity.
  - left. cbn [Py.getitem lookup list_lookup rbind].
    rewrite list_set_in by lia. cbn [rbind].
    eexists. split; [reflexivity|].
    split; [|reflexivity]. split; cbn; rewrite length_insert; assumption.
  - left. eexists. split; [reflexivity|].
    split; [|reflexivity]. split; cbn; [rewrite length_insert|]; assumption.
Qed.

Lemma measure_row_in_bounds row i c :
  sized c → i + length row ≤ 100 →
  (∃ c', MdRenderer.measure_row h row i c = Ok c' ∧ sized c'
         ∧ MdRenderer.colscount c' = MdRenderer.colscount c)
  ∨ (MdRenderer.measure_row h row i c = Raise (IndexError OfString)
     ∧ Exists (empty_align h) row).
Proof.
  revert i c. induction row as [|col row IH]; intros i c Hc Hlen.
  - left. exists c. repeat split; apply Hc.
  - simpl in Hlen. cbn [MdRenderer.measure_row].
    destruct (measure_cell_in_bounds i col c Hc) as [(c1 & -> & Hc1 & Hcc)|[-> He]];
      [lia| |].
    + cbn [rbind].
      destruct (IH (S i) c1 Hc1) as [(c2 & -> & Hc2 & Hcc2)|[-> He]]; [lia| |].
      * left. exists c2. repeat split; try apply Hc2. congruence.
      * right. split; [reflexivity|]. apply Exists_cons_tl, He.
    + right. split; [reflexivity|]. apply Exists_cons_hd, He.
Qed.

Lemma measure_in_bounds rows c :
  sized c → MdRenderer.colscount c ≤ 100 →
  Forall (λ row, length row ≤ 100) rows →
  (∃ c', MdRenderer.measure h rows c = Ok c' ∧ sized c'
         ∧ MdRenderer.colscount c' ≤ 100)
  ∨ (MdRenderer.measure h rows c = Raise (IndexError OfString)
     ∧ Exists (Exists (empty_align h)) rows).
Proof.
  intros Hc Hcc Hall. revert c Hc Hcc.
  induction Hall as [|row rows Hrow _ IH]; intros c Hc Hcc.
  - left. exists c. auto.
  - cbn [MdRenderer.measure].
    set (c0 := MdRenderer.Columns _ _ _).
    assert (sized c0) as Hc0 by exact Hc.
    destruct (measure_row_in_bounds row 0 c0 Hc0)
      as [(c1 & -> & Hc1 & Hcc1)|[-> He]]; [simpl; lia| |].
    + cbn [rbind].
      destruct (IH c1 Hc1) as [(c2 & -> & Hc2)|[-> He]].
      * rewrite Hcc1. subst c0. cbn. lia.
      * left. exists c2. auto.
      * right. split; [reflexivity|]. apply Exists_cons_tl, He.
    + right. split; [reflexivity|]. apply Exists_cons_hd, He.
Qed.

Lemma emit_cells_in_bounds row i (cm : list Z) (r : str) :
  length cm = 100 → i + length row ≤ 100 →
  ∃ r', MdRenderer.emit_cells row i cm r = Ok r'.
Proof.
  intros Hcm. revert i r. induction row as [|col row IH]; intros i r Hlen.
  - eexists. reflexivity.
  - simpl in Hlen. cbn [MdRenderer.emit_cells].
    destruct (list_get_in cm i) as (w & -> & _); [lia|]. cbn [rbind].
    apply IH. lia.
Qed.

Lemma emit_rows_in_bounds rows (cm : list Z) (r : str) :
  length cm = 100 → Forall (λ row, length row ≤ 100) rows →
  ∃ r', MdRenderer.emit_rows rows cm r = Ok r'.
Proof.
  intros Hcm Hall. revert r.
  induction Hall as [|row rows Hrow _ IH]; intros r.
  - eexists. reflexivity.
  - cbn [MdRenderer.emit_rows].
    destruct (emit_cells_in_bounds row 0 cm r Hcm) as [r' ->]; [simpl; lia|].
    cbn [rbind]. apply IH.
Qed.

Lemma emit_rule_in_bounds c i (r : str) :
  sized c → i < 100 → ∃ r', MdRenderer.emit_rule c i r = Ok r'.
Proof.
  intros [Hcm Hal] Hi. unfold MdRenderer.emit_rule.
  destruct (list_get_in (MdRenderer.align c) i) as (a & -> & _); [lia|].
  destruct (list_get_in (MdRenderer.colmax c) i) as (w & -> & _); [lia|].
  cbn [rbind]. repeat case_decide; eexists; reflexivity.
Qed.

Lemma emit_rules_in_bounds c range (r : str) :
  sized c → Forall (λ i, i < 100) range →
  ∃ r', MdRenderer.emit_rules c range r = Ok r'.
Proof.
  intros Hc Hall. revert r. induction Hall as [|i range Hi _ IH]; intros r.
  - eexists. reflexivity.
  - cbn [MdRenderer.emit_rules].
    destruct (emit_rule_in_bounds c i r Hc Hi) as [r' ->]. cbn [rbind].
    apply IH.
Qed.

Lemma table_layout_in_bounds hrows brows :
  Forall (λ row, length row ≤ 100) (hrows ++ brows) →
  (∃ r, MdRenderer.table_layout h hrows brows = Ok r)
  ∨ (MdRenderer.table_layout h hrows brows = Raise (IndexError OfString)
     ∧ Exists (Exists (empty_align h)) (hrows ++ brows)).
Proof.
  intros Hall. unfold MdRenderer.table_layout.
  destruct (measure_in_bounds (hrows ++ brows) MdRenderer.columns_init
              columns_init_sized) as [(c & -> & Hc & Hcc)|[-> He]];
    [cbn; lia | exact Hall | | right; auto].
  left. cbn [rbind]. apply Forall_app in Hall as [Hh Hb].
  destruct (emit_rows_in_bounds hrows (MdRenderer.colmax c) [] (proj1 Hc) Hh)
    as [r1 ->]. cbn [rbind].
  destruct (emit_rules_in_bounds c (seq 0 (MdRenderer.colscount c)) r1 Hc)
    as [r2 ->].
  { apply Forall_forall. intros i Hi. apply elem_of_seq in Hi. lia. }
  cbn [rbind]. apply emit_rows_in_bounds; [apply Hc | exact Hb].
Qed.

End Columns.

(** C9. When every row of a table has at most 100 cells, laying it out
    never reaches outside the hundred-entry width and alignment arrays:
    no list index error is raised, and the layout runs to its end with a
    result, unless a row carries an empty [align] value, of which the
    first character is asked. *)
Theorem table_arrays_in_bounds (h : MdRenderer.heap)
    (hrows brows : list (list MdRenderer.cell)) :
  Forall (λ row, length row ≤ 100) (hrows ++ brows) →
  MdRenderer.table_layout h hrows brows ≠ Raise (IndexError OfList)
  ∧ ((∃ r, MdRenderer.table_layout h hrows brows = Ok r)
     ∨ (MdRenderer.table_layout h hrows brows = Raise (IndexError OfString)
        ∧ Exists (Exists (empty_align h)) (hrows ++ brows))).
Proof.
  intros Hall.
  pose proof (table_layout_in_bounds h hrows brows Hall) as Hcases.
  split; [|exact Hcases].
  destruct Hcases as [[r ->]|[-> _]]; discriminate.
Qed.

Lemma table_arrays_in_bounds_witness :
  MdRenderer.table_layout left_right_heap
    [[MdRenderer.Cell 0 "A"]] [[MdRenderer.Cell 1 "1"]]
  ≠ Raise (IndexError OfList).
Proof.
  apply (table_arrays_in_bounds left_right_heap
           [[MdRenderer.Cell 0 "A"]] [[MdRenderer.Cell 1 "1"]]).
  repeat constructor; simpl; lia.
Defined.

(** The bound is needed: the 101st cell of a row falls off the arrays. *)
Example table_row_of_101_cells :
  MdRenderer.table_layout [∅] [replicate 101 (MdRenderer.Cell 0 [])] []
  = Raise (IndexError OfList).
Proof. vm_compute. reflexivity. Qed.

Section Alignment.

Variable h : MdRenderer.heap.

Lemma measure_cell_align k col c c1 i :
  MdRenderer.measure_cell h k col c = Ok c1 →
  MdRenderer.align c1 !! i
  = match (if decide (i = k) then cell_align h col else None) with
    | Some v => Some (take 1 v)
    | None => MdRenderer.align c !! i
    end.
Proof.
  unfold MdRenderer.measure_cell, MdRenderer.list_get, MdRenderer.list_set,
    cell_align.
  destruct (MdRenderer.colmax c !! k) as [w|]; [|discriminate]. cbn [rbind].
  destruct (decide (k < length (MdRenderer.colmax c))); [|discriminate].
  cbn [rbind].
  destruct (MdRenderer.deref h (MdRenderer.flags col) !! ("align" : str))
    as [[|a v]|]; [discriminate| |].
  - cbn [Py.getitem lookup list_lookup rbind].
    destruct (decide (k < length (MdRenderer.align c))) as [Hk|]; [|discriminate].
    cbn [rbind]. intros [= <-]. cbn [MdRenderer.align].
    destruct (decide (i = k)) as [->|Hne].
    + rewrite list_lookup_insert_eq by exact Hk. reflexivity.
    + rewrite list_lookup_insert_ne by congruence. reflexivity.
  - intros [= <-]. cbn [MdRenderer.align]. destruct (decide (i = k)); reflexivity.
Qed.

Lemma measure_row_align row k c c' i :
  MdRenderer.measure_row h row k c = Ok c' →
  MdRenderer.align c' !! i
  = match (if decide (k ≤ i) then row !! (i - k) ≫= cell_align h else None) with
    | Some v => Some (take 1 v)
    | None => MdRenderer.align c !! i
    end.
Proof.
  revert k c. induction row as [|col row IH]; intros k c.
  - intros [= <-]. destruct (decide (k ≤ i)); reflexivity.
  - cbn [MdRenderer.measure_row].
    destruct (MdRenderer.measure_cell h k col c) as [c1|] eqn:E1; [|discriminate].
    cbn [rbind]. intros E2. rewrite (IH _ _ E2), (measure_cell_align _ _ _ _ i E1).
    destruct (decide (S k ≤ i)) as [Hlt|Hge].
    + destruct (decide (k ≤ i)); [|lia].
      replace (i - k) with (S (i - S k)) by lia. cbn [lookup list_lookup].
      destruct (decide (i = k)); [lia|]. reflexivity.
    + destruct (decide (i = k)) as [->|Hne].
      * destruct (decide (k ≤ k)); [|lia]. rewrite Nat.sub_diag. reflexivity.
      * destruct (decide (k ≤ i)); [lia|]. reflexivity.
Qed.

Lemma measure_align rows c c' i :
  MdRenderer.measure h rows c = Ok c' →
  MdRenderer.align c' !! i
  = match last (column_aligns h rows i) with
    | Some v => Some (take 1 v)
    | None => MdRenderer.align c !! i
    end.
Proof.
  revert c. induction rows as [|row rows IH]; intros c.
  - intros [= <-]. reflexivity.
  - cbn [MdRenderer.measure].
    set (c0 := MdRenderer.Columns _ _ _).
    destruct (MdRenderer.measure_row h row 0 c0) as [c1|] eqn:E1; [|discriminate].
    cbn [rbind]. intros E2.
    rewrite (IH _ E2), (measure_row_align _ _ _ _ i E1).
    destruct (decide (0 ≤ i)); [|lia]. rewrite Nat.sub_0_r.
    unfold column_aligns. cbn [omap list_omap].
    destruct (row !! i ≫= cell_align h) as [v|].
    + rewrite last_cons. destruct (last _); reflexivity.
    + reflexivity.
Qed.

End Alignment.

(** C8, the claim as stated fails: in the one-column table whose header
    cell is aligned left and whose body cell is aligned right, the first
    [align] flag met in the column gives [l], yet the alignment used is
    [r] and the separator row is [-:]. *)
Lemma table_alignment_is_not_first_flag :
  MdRenderer.table_rows 10 left_header right_body
  = Some (Ok (left_right_heap, [[MdRenderer.Cell 0 "A"]], [[MdRenderer.Cell 1 "1"]]))
  ∧ spec_first_align left_right_heap
      ([[MdRenderer.Cell 0 "A"]] ++ [[MdRenderer.Cell 1 "1"]]) 0 = ("l" : str)
  ∧ (∃ c, MdRenderer.measure left_right_heap
            ([[MdRenderer.Cell 0 "A"]] ++ [[MdRenderer.Cell 1 "1"]])
            MdRenderer.columns_init = Ok c
          ∧ MdRenderer.align c !! 0 = Some ("r" : str))
  ∧ MdRenderer.table 10 left_header right_body
    = Some (Ok ("A" ++ [LF] ++ "-:" ++ [LF] ++ "1" ++ [LF])).
Proof.
  split; [vm_compute; reflexivity|].
  split; [vm_compute; reflexivity|].
  split; [|vm_compute; reflexivity].
  destruct (MdRenderer.measure left_right_heap
              ([[MdRenderer.Cell 0 "A"]] ++ [[MdRenderer.Cell 1 "1"]])
              MdRenderer.columns_init) as [c|e] eqn:E;
    vm_compute in E; [|discriminate].
  exists c. split; [reflexivity|]. injection E as <-. reflexivity.
Qed.

(** C8, amended. For every table the measuring pass gets through, the
    alignment used for a column is the first character of the last
    [align] flag met in that column when the rows are scanned from top to
    bottom, header rows before body rows: a later row overrides an earlier
    one. A column that meets no such flag keeps the empty alignment. *)
Theorem column_alignment_is_last_flag (h : MdRenderer.heap)
    (hrows brows : list (list MdRenderer.cell)) (c : MdRenderer.columns)
    (i : nat) :
  MdRenderer.measure h (hrows ++ brows) MdRenderer.columns_init = Ok c →
  i < 100 →
  MdRenderer.align c !! i = Some (last_align h (hrows ++ brows) i).
Proof.
  intros E Hi. rewrite (measure_align h _ _ _ i E). unfold last_align.
  destruct (last (column_aligns h (hrows ++ brows) i)); [reflexivity|].
  apply lookup_replicate_2, Hi.
Qed.

Lemma column_alignment_is_last_flag_witness :
  ∃ c, MdRenderer.measure left_right_heap
         ([[MdRenderer.Cell 0 "A"]] ++ [[MdRenderer.Cell 1 "1"]])
         MdRenderer.columns_init = Ok c
       ∧ MdRenderer.align c !! 0
         = Some (last_align left_right_heap
                   ([[MdRenderer.Cell 0 "A"]] ++ [[MdRenderer.Cell 1 "1"]]) 0).
Proof.
  destruct (MdRenderer.measure left_right_heap
              ([[MdRenderer.Cell 0 "A"]] ++ [[MdRenderer.Cell 1 "1"]])
              MdRenderer.columns_init) as [c|e] eqn:E.
  - exists c. split; [reflexivity|].
    apply (column_alignment_is_last_flag left_right_heap
             [[MdRenderer.Cell 0 "A"]] [[MdRenderer.Cell 1 "1"]] c 0 E).
    lia.
  - vm_compute in E. discriminate.
Defined.

(** * Further properties of the renderer *)

(** ** The decoder on arbitrary buffers *)

Lemma int_raises (s : str) e : Py.int s = Raise e → e = ValueError_int s.
Proof.
  unfold Py.int.
  destruct (match Py.lstrip_space s with
            | c :: r =>
                if Ascii.eqb c "+" then (1%Z, r)
                else if Ascii.eqb c "-" then ((-1)%Z, r)
                else (1%Z, Py.lstrip_space s)
            | [] => (1%Z, Py.lstrip_space s)
            end) as [sign digits].
  destruct digits as [|c digits]; [congruence|].
  destruct (Py.is_digit c); [|congruence].
  destruct (Py.scan_digits (c :: digits) zero 0) as [[v rest]|]; [|congruence].
  destruct (Py.lstrip_space rest); [discriminate | congruence].
Qed.

(** A chunk that declares a length that is not negative is consumed:
    what [get_block] leaves is shorter than the buffer it was given. *)
Theorem get_block_consumes_chunk (text rest type t : str) (l : Z) :
  (0 < Py.find ":" text)%Z →
  Py.int (Py.slice text 1 (Py.find ":" text)) = Ok l →
  (0 <= l)%Z →
  MdRenderer.get_block text = Ok (rest, type, t) →
  length rest < length text.
Proof. apply get_block_progress. Qed.

Lemma get_block_consumes_chunk_witness :
  length ("l1:x" : str) < length ("l3:abcl1:x" : str).
Proof.
  apply (get_block_consumes_chunk "l3:abcl1:x" "l1:x" "l" "abc" 3).
  - vm_compute. reflexivity.
  - vm_compute. reflexivity.
  - lia.
  - vm_compute. reflexivity.
Defined.

Lemma get_block_cut (text rest type t : str) :
  MdRenderer.get_block text = Ok (rest, type, t) →
  rest `suffix_of` text
  ∧ (∃ a b : str, text = a ++ t ++ b)
  ∧ (type = take 1 text ∨ (type = [] ∧ t = [] ∧ rest = [])).
Proof.
  unfold MdRenderer.get_block.
  destruct text as [|c text]; [discriminate|].
  remember (Py.find ":" (c :: text)) as p eqn:Ep. clear Ep.
  cbn [Py.getitem lookup list_lookup rbind].
  destruct (p <=? 0)%Z.
  - intros [= <- <- <-]. split; [apply suffix_nil|].
    split; [exists [], (c :: text); reflexivity | right; auto].
  - destruct (Py.int (Py.slice (c :: text) 1 p)) as [l|e]; [|discriminate].
    cbn [rbind]. intros [= <- <- <-].
    split; [apply suffix_drop|]. split; [|left; reflexivity].
    unfold Py.slice.
    set (lo := Py.bound _ (p + 1)). set (hi := Py.bound _ (p + 1 + l)).
    exists (take lo (c :: text)), (drop (hi - lo) (drop lo (c :: text))).
    rewrite take_drop, take_drop. reflexivity.
Qed.

(** Whatever [get_block] returns is cut out of the buffer: the
    remainder is a suffix of it, the payload a run of consecutive
    characters of it, the tag its first character; only the answer to a
    buffer without a length field has an empty tag. *)
Theorem get_block_cuts_buffer (text rest type t : str) :
  MdRenderer.get_block text = Ok (rest, type, t) →
  rest `suffix_of` text
  ∧ (∃ a b : str, text = a ++ t ++ b)
  ∧ (type = take 1 text ∨ (type = [] ∧ t = [] ∧ rest = [])).
Proof. apply get_block_cut. Qed.

Lemma get_block_cuts_buffer_witness :
  ("l1:x" : str) `suffix_of` ("l3:abcl1:x" : str).
Proof.
  apply (get_block_cuts_buffer "l3:abcl1:x" "l1:x" "l" "abc").
  vm_compute. reflexivity.
Defined.

(** [get_block] fails in two ways only: on the empty buffer, whose
    first character does not exist, and on a length field that [int]
    rejects. *)
Theorem get_block_errors (text : str) (e : exn) :
  MdRenderer.get_block text = Raise e →
  (text = [] ∧ e = IndexError OfString)
  ∨ (text ≠ [] ∧ (0 < Py.find ":" text)%Z
     ∧ e = ValueError_int (Py.slice text 1 (Py.find ":" text))).
Proof.
  unfold MdRenderer.get_block.
  destruct text as [|c text]; [intros [= <-]; left; auto|].
  remember (Py.find ":" (c :: text)) as p eqn:Ep. clear Ep.
  cbn [Py.getitem lookup list_lookup rbind].
  destruct (Z.leb_spec p 0); [discriminate|].
  destruct (Py.int (Py.slice (c :: text) 1 p)) as [l|e'] eqn:E; [discriminate|].
  cbn [rbind]. intros [= <-]. right.
  split; [discriminate|]. split; [lia|]. apply (int_raises _ _ E).
Qed.

Lemma get_block_errors_witness :
  (("lx:abc" : str) = [] ∧ ValueError_int "x" = IndexError OfString)
  ∨ (("lx:abc" : str) ≠ [] ∧ (0 < Py.find ":" "lx:abc")%Z
     ∧ ValueError_int "x" = ValueError_int (Py.slice "lx:abc" 1 (Py.find ":" "lx:abc"))).
Proof.
  apply (get_block_errors "lx:abc" (ValueError_int "x")).
  vm_compute. reflexivity.
Defined.

(** ** Lists *)

Lemma list_renders_items_witness :
  MdRenderer.list_ 2 (concat (map MdRenderer.list_item [("a:1" : str); ("" : str)])) false
  = Some (Ok (concat (map (λ t : str, ("* " ++ t) ++ [LF]) [("a:1" : str); ("" : str)]))).
Proof.
  apply (list_renders_items [("a:1" : str); ("" : str)] 2 false).
  simpl. lia.
Defined.

(** [list] renders the [l] chunks of a buffer and passes over the
    chunks with any other tag. *)
Theorem list_skips_other_chunks (chunks : list (ascii * str)) (fuel : nat)
    (ordered : bool) :
  Forall (λ c, c.1 ∈ MdRenderer.tags) chunks →
  length chunks ≤ fuel →
  MdRenderer.list_ fuel (encode_all chunks) ordered
  = Some (Ok (concat (map (λ c : ascii * str,
                             (if ordered then "# " ++ c.2 else "* " ++ c.2) ++ [LF])
                        (filter (λ c, c.1 = "l"%char) chunks)))).
Proof.
  intros Hall Hfuel. unfold MdRenderer.list_.
  rewrite list_loop_blocks, blocks_encode_all by assumption.
  f_equal. f_equal. clear Hall Hfuel.
  lazymatch goal with
  | |- foldl ?F [] (map ?G chunks) = concat (map ?L (filter ?P chunks)) =>
      assert (∀ r : str, foldl F r (map G chunks)
                         = r ++ concat (map L (filter P chunks))) as Hf
  end.
  { induction chunks as [|[t p] chunks IH]; intros r.
    - symmetry. apply app_nil_r.
    - cbn [map foldl fst snd]. rewrite IH.
      destruct (decide (t = "l"%char)) as [->|Hne].
      + rewrite filter_cons_True by reflexivity.
        case_decide as Hl; [|exfalso; apply Hl; reflexivity].
        cbn [map concat fst snd]. rewrite <- !app_assoc. reflexivity.
      + rewrite filter_cons_False by exact Hne.
        case_decide as Hl; [|reflexivity].
        exfalso. apply Hne. injection Hl as ->. reflexivity. }
  apply (Hf []).
Qed.

Lemma list_skips_other_chunks_witness :
  MdRenderer.list_ 3
    (encode_all [("l"%char, "a" : str); ("c"%char, "x" : str); ("l"%char, "b" : str)])
    true
  = Some (Ok ("# a" ++ [LF] ++ "# b" ++ [LF])).
Proof.
  apply (list_skips_other_chunks
           [("l"%char, "a" : str); ("c"%char, "x" : str); ("l"%char, "b" : str)] 3 true).
  - repeat constructor; unfold MdRenderer.tags; simpl; set_solver.
  - simpl. lia.
Defined.

(** A loop of [list] that is not through after as many turns as the
    buffer has characters has met a chunk that [get_block] hands back
    whole, and such a chunk declares a negative length. *)
Lemma get_block_inv (text rest type t : str) :
  MdRenderer.get_block text = Ok (rest, type, t) →
  rest ≠ [] →
  ∃ l, (0 < Py.find ":" text)%Z
       ∧ Py.int (Py.slice text 1 (Py.find ":" text)) = Ok l.
Proof.
  unfold MdRenderer.get_block.
  destruct text as [|c text]; [discriminate|].
  remember (Py.find ":" (c :: text)) as p eqn:Ep. clear Ep.
  cbn [Py.getitem lookup list_lookup rbind].
  destruct (Z.leb_spec p 0); [intros [= <- _ _]; congruence|].
  destruct (Py.int (Py.slice (c :: text) 1 p)) as [l|e]; [|discriminate].
  intros _ _. exists l. split; [lia | reflexivity].
Qed.

Lemma list_loop_stalled fuel (text r : str) ordered :
  length text ≤ fuel →
  MdRenderer.list_loop fuel text r ordered = None →
  ∃ (s type t : str) (l : Z),
    s `suffix_of` text
    ∧ MdRenderer.get_block s = Ok (s, type, t)
    ∧ Py.int (Py.slice s 1 (Py.find ":" s)) = Ok l ∧ (l < 0)%Z.
Proof.
  revert text r. induction fuel as [|fuel IH]; intros text r Hlen.
  - destruct text; [discriminate | simpl in Hlen; lia].
  - destruct text as [|c text]; [discriminate|].
    rewrite list_loop_unfold.
    destruct (MdRenderer.get_block (c :: text)) as [[[rest type] t]|e] eqn:E;
      [|discriminate].
    destruct (get_block_cut _ _ _ _ E) as (Hsuf & _ & _).
    destruct (decide (length rest < length (c :: text))) as [Hlt|Hge].
    + intros Hnone.
      assert (length rest ≤ fuel) as Hfuel by (cbn [length] in Hlen, Hlt; lia).
      destruct (IH rest _ Hfuel Hnone) as (s & ty & t' & l & Hs & Hrest).
      exists s, ty, t', l. split; [etrans; eassumption | exact Hrest].
    + intros _.
      assert (rest ≠ []) as Hne by (intros ->; simpl in Hge; lia).
      destruct (get_block_inv _ _ _ _ E Hne) as (l & Hp & Hint).
      destruct (decide (0 ≤ l)%Z) as [Hl|Hl].
      { pose proof (get_block_progress _ _ _ _ l Hp Hint Hl E). lia. }
      assert (rest = c :: text) as ->.
      { destruct Hsuf as [k Hk].
        assert (length (c :: text) = length k + length rest) as Hlen'
          by (rewrite Hk, length_app; reflexivity).
        destruct k; [exact (eq_sym Hk) | cbn [length] in Hlen', Hge; lia]. }
      exists (c :: text), type, t, l. split; [reflexivity|].
      split; [exact E|]. split; [exact Hint | lia].
Qed.

Theorem list_stalls_only_on_negative_length (text : str) (ordered : bool) :
  MdRenderer.list_ (length text) text ordered = None →
  ∃ (s type t : str) (l : Z),
    s `suffix_of` text
    ∧ MdRenderer.get_block s = Ok (s, type, t)
    ∧ Py.int (Py.slice s 1 (Py.find ":" s)) = Ok l ∧ (l < 0)%Z.
Proof. apply list_loop_stalled. reflexivity. Qed.

Lemma list_stalls_only_on_negative_length_witness :
  ∃ (s type t : str) (l : Z),
    s `suffix_of` ("l1:al-4:" : str)
    ∧ MdRenderer.get_block s = Ok (s, type, t)
    ∧ Py.int (Py.slice s 1 (Py.find ":" s)) = Ok l ∧ (l < 0)%Z.
Proof.
  apply (list_stalls_only_on_negative_length "l1:al-4:" true).
  vm_compute. reflexivity.
Defined.

(** ** Tables: decoding what [table_cell] and [table_row] wrote *)

Section TableCodec.

Lemma split_no_sep c (s : str) : c ∉ s → Py.split c s = [s].
Proof.
  induction s as [|x s IH]; intros Hc; [reflexivity|].
  apply not_elem_of_cons in Hc as [Hx Hs]. cbn [Py.split].
  destruct (Ascii.eqb_spec x c) as [->|_]; [congruence|].
  rewrite (IH Hs). reflexivity.
Qed.

Lemma split_once c (a b : str) :
  c ∉ a → c ∉ b → Py.split c (a ++ c :: b) = [a; b].
Proof.
  intros Ha Hb. induction a as [|x a IH]; cbn [app Py.split].
  - rewrite Ascii.eqb_refl, (split_no_sep _ _ Hb). reflexivity.
  - apply not_elem_of_cons in Ha as [Hx Ha].
    destruct (Ascii.eqb_spec x c) as [->|_]; [congruence|].
    rewrite (IH Ha). reflexivity.
Qed.

Lemma table_cell_chunks (content : str) flags :
  MdRenderer.table_cell content flags
  = encode_all (map (λ f : str * MdRenderer.flag_value,
                       ("f"%char, f.1 ++ "=" ++ MdRenderer.flag_text f.2)) flags)
    ++ MdRenderer.chunk "c" (Py.replace LF " " content).
Proof.
  unfold MdRenderer.table_cell. f_equal.
  lazymatch goal with
  | |- foldl ?F [] flags = encode_all (map ?G flags) =>
      assert (∀ r : str, foldl F r flags = r ++ encode_all (map G flags)) as Hf
  end.
  { induction flags as [|[fl v] flags IH]; intros r.
    - symmetry. apply app_nil_r.
    - cbn [foldl map]. rewrite IH.
      unfold encode_all. cbn [map concat fst snd].
      unfold MdRenderer.chunk. rewrite !length_app.
      change (length (list_ascii_of_string "=")) with 1.
      rewrite Nat.add_assoc, <- !app_assoc. reflexivity. }
  apply (Hf []).
Qed.

Lemma row_loop_unfold fuel c (s : str) h ref cols :
  MdRenderer.row_loop (S fuel) (c :: s) h ref cols
  = match MdRenderer.get_block (c :: s) with
    | Raise e => Some (Raise e)
    | Ok (t', type2, t2) =>
        if decide (type2 = "f") then
          match Py.split "=" t2 with
          | [fl; v] =>
              MdRenderer.row_loop fuel t' (alter (insert fl v) ref h) ref cols
          | pieces => Some (Raise (ValueError_unpack (length pieces)))
          end
        else if decide (type2 = "c") then
          MdRenderer.row_loop fuel t' h ref (cols ++ [MdRenderer.Cell ref t2])
        else MdRenderer.row_loop fuel t' h ref cols
    end.
Proof. reflexivity. Qed.

Lemma row_loop_flag fuel (fl v rest : str) h ref cols :
  "="%char ∉ fl → "="%char ∉ v →
  MdRenderer.row_loop (S fuel) (MdRenderer.chunk "f" (fl ++ "=" ++ v) ++ rest)
    h ref cols
  = MdRenderer.row_loop fuel rest (alter (insert fl v) ref h) ref cols.
Proof.
  intros Hfl Hv.
  pose proof (get_block_chunk "f" (fl ++ "=" ++ v) rest ltac:(discriminate)) as E.
  change (MdRenderer.chunk "f" (fl ++ "=" ++ v) ++ rest)
    with ("f"%char :: (Py.str_of_nat (length (fl ++ "=" ++ v)) ++ ":"
                         ++ fl ++ "=" ++ v) ++ rest) in *.
  rewrite row_loop_unfold, E.
  case_decide as Hf; [|exfalso; apply Hf; reflexivity].
  change (fl ++ "=" ++ v) with (fl ++ "="%char :: v).
  rewrite (split_once _ _ _ Hfl Hv). reflexivity.
Qed.

Lemma row_loop_cell fuel (p rest : str) h ref cols :
  MdRenderer.row_loop (S fuel) (MdRenderer.chunk "c" p ++ rest) h ref cols
  = MdRenderer.row_loop fuel rest h ref (cols ++ [MdRenderer.Cell ref p]).
Proof.
  pose proof (get_block_chunk "c" p rest ltac:(discriminate)) as E.
  change (MdRenderer.chunk "c" p ++ rest)
    with ("c"%char :: (Py.str_of_nat (length p) ++ ":" ++ p) ++ rest) in *.
  rewrite row_loop_unfold, E.
  case_decide as Hf; [discriminate Hf|].
  case_decide as Hc; [|exfalso; apply Hc; reflexivity]. reflexivity.
Qed.

Lemma row_loop_flags fuel flags (rest : str) h ref cols :
  Forall (λ f : str * MdRenderer.flag_value,
            ("="%char ∉ f.1) ∧ ("="%char ∉ MdRenderer.flag_text f.2)) flags →
  MdRenderer.row_loop (length flags + fuel)
    (encode_all (map (λ f : str * MdRenderer.flag_value,
                        ("f"%char, f.1 ++ "=" ++ MdRenderer.flag_text f.2)) flags)
     ++ rest) h ref cols
  = MdRenderer.row_loop fuel rest (alter (λ d, store_flags d flags) ref h) ref cols.
Proof.
  intros Hall. revert h.
  induction Hall as [|[fl v] flags [Hfl Hv] _ IH]; intros h.
  - cbn [length map plus]. unfold encode_all. cbn [map concat app].
    f_equal. symmetry. apply list_alter_id. reflexivity.
  - cbn [length map plus fst snd] in *.
    change (encode_all ((?c) :: ?l)) with (MdRenderer.chunk c.1 c.2 ++ encode_all l).
    cbn [fst snd]. rewrite <- app_assoc.
    rewrite row_loop_flag by assumption. rewrite IH.
    rewrite list_alter_alter_eq. reflexivity.
Qed.

(** The chunks of a row of cells, read back into the dictionary at
    [ref]. *)
Lemma row_loop_cells cells fuel (rest : str) h ref cols :
  splittable cells →
  MdRenderer.row_loop (row_chunks cells + fuel)
    (concat (map (λ c : source_cell, MdRenderer.table_cell c.1 c.2) cells) ++ rest)
    h ref cols
  = MdRenderer.row_loop fuel rest (alter (λ d, store_row d cells) ref h) ref
      (cols ++ decoded_row ref cells).
Proof.
  intros Hall. revert h cols.
  induction Hall as [|[content flags] cells Hflags _ IH]; intros h cols.
  - cbn. rewrite app_nil_r. f_equal. symmetry. apply list_alter_id. reflexivity.
  - unfold row_chunks. cbn [map foldr fst snd concat] in *.
    fold (row_chunks cells).
    rewrite table_cell_chunks, <- !app_assoc.
    replace (S (length flags) + row_chunks cells + fuel)
      with (length flags + S (row_chunks cells + fuel)) by lia.
    rewrite row_loop_flags by exact Hflags.
    rewrite row_loop_cell, IH, list_alter_alter_eq.
    unfold decoded_row. cbn [map fst snd]. rewrite <- app_assoc. reflexivity.
Qed.

Lemma rows_loop_rows rows n fuel h acc :
  Forall splittable rows →
  Forall (λ cells, row_chunks cells ≤ n) rows →
  length rows ≤ fuel →
  MdRenderer.rows_loop n fuel (encode_rows rows) h acc
  = Some (Ok (h ++ map (store_row ∅) rows,
              acc ++ imap (λ k, decoded_row (length h + k)) rows)).
Proof.
  intros Hsplit. revert fuel h acc.
  induction Hsplit as [|cells rows Hcells _ IH]; intros fuel h acc Hn Hfuel.
  - destruct fuel; cbn; rewrite !app_nil_r; reflexivity.
  - apply Forall_cons in Hn as [Hn Hns].
    destruct fuel as [|fuel]; [simpl in Hfuel; lia|]. cbn [length] in Hfuel.
    unfold encode_rows. cbn [map concat]. fold (encode_rows rows).
    unfold encode_row at 1.
    set (content := concat (map (λ c : source_cell, MdRenderer.table_cell c.1 c.2) cells)).
    pose proof (get_block_chunk "r" content (encode_rows rows) ltac:(discriminate)) as E.
    change (MdRenderer.table_row content) with (MdRenderer.chunk "r" content).
    change (MdRenderer.chunk "r" content ++ encode_rows rows)
      with ("r"%char :: (Py.str_of_nat (length content) ++ ":" ++ content)
              ++ encode_rows rows) in *.
    rewrite rows_loop_unfold, E.
    case_decide as Hr; [|exfalso; apply Hr; reflexivity].
    pose proof (row_loop_cells cells (n - row_chunks cells) [] (h ++ [∅])
                  (length h) [] Hcells) as Hrow.
    rewrite app_nil_r in Hrow.
    replace (row_chunks cells + (n - row_chunks cells)) with n in Hrow by lia.
    subst content. rewrite Hrow.
    assert (MdRenderer.row_loop (n - row_chunks cells) []
              (alter (λ d, store_row d cells) (length h) (h ++ [∅])) 
              (length h) ([] ++ decoded_row (length h) cells)
            = Some (Ok (h ++ [store_row ∅ cells], decoded_row (length h) cells))) as ->.
    { rewrite <- (Nat.add_0_r (length h)) at 1. rewrite alter_app_r.
      destruct (n - row_chunks cells); reflexivity. }
    rewrite IH by (assumption || lia).
    rewrite length_app. cbn [length map imap].
    rewrite <- !app_assoc. cbn [app]. rewrite Nat.add_0_r.
    do 3 f_equal. f_equal. f_equal.
    apply imap_ext. intros k x _. cbn. f_equal. lia.
Qed.

End TableCodec.

Lemma table_rows_round_trip_eq (hrows brows : list (list source_cell)) (n : nat) :
  Forall splittable (hrows ++ brows) →
  Forall (λ cells, row_chunks cells ≤ n) (hrows ++ brows) →
  length hrows ≤ n → length brows ≤ n →
  MdRenderer.table_rows n (encode_rows hrows) (encode_rows brows)
  = Some (Ok (map (store_row ∅) (hrows ++ brows),
              imap decoded_row hrows,
              imap (λ k, decoded_row (length hrows + k)) brows)).
Proof.
  intros Hsplit Hn Hh Hb.
  apply Forall_app in Hsplit as [Hsh Hsb]. apply Forall_app in Hn as [Hnh Hnb].
  unfold MdRenderer.table_rows.
  rewrite (rows_loop_rows hrows n n [] [] Hsh Hnh Hh). cbn [app length plus].
  rewrite (rows_loop_rows brows n n _ [] Hsb Hnb Hb). cbn [app].
  rewrite length_map, map_app. reflexivity.
Qed.

(** The rows of a table, encoded by [table_cell] and [table_row] and
    decoded by [table], come back in order with the cell texts unchanged
    but for line feeds turned into spaces. All cells of a row refer to one
    dictionary, which holds the flags of every cell of the row, a later
    cell replacing what an earlier one stored under the same name. *)
Theorem table_rows_round_trip (hrows brows : list (list source_cell)) (n : nat) :
  Forall splittable (hrows ++ brows) →
  Forall (λ cells, row_chunks cells ≤ n) (hrows ++ brows) →
  length hrows ≤ n → length brows ≤ n →
  MdRenderer.table_rows n (encode_rows hrows) (encode_rows brows)
  = Some (Ok (map (store_row ∅) (hrows ++ brows),
              imap decoded_row hrows,
              imap (λ k, decoded_row (length hrows + k)) brows)).
Proof. apply table_rows_round_trip_eq. Qed.

Lemma table_rows_round_trip_witness :
  let hrows : list (list source_cell) :=
    [[("A" : str, [("align" : str, MdRenderer.FStr "left")]);
      ("B" : str, [("align" : str, MdRenderer.FStr "right")])]] in
  let brows : list (list source_cell) := [[("1" : str, []); ("2" : str, [])]] in
  MdRenderer.table_rows 4 (encode_rows hrows) (encode_rows brows)
  = Some (Ok (map (store_row ∅) (hrows ++ brows),
              imap decoded_row hrows,
              imap (λ k, decoded_row (length hrows + k)) brows)).
Proof.
  intros hrows brows. apply (table_rows_round_trip hrows brows 4).
  - unfold splittable.
    repeat first [apply Forall_nil | apply Forall_cons; split; cbn [fst snd]];
      (split; cbn; intros H;
       repeat (apply elem_of_cons in H as [H|H]; [discriminate H|]); inversion H).
  - repeat constructor; cbn; lia.
  - cbn. lia.
  - cbn. lia.
Defined.

(** ** Tables: shared flags, widths and rules *)

Section TableLayout.

Lemma store_flags_lookup (d : gmap str str) flags (key : str) :
  store_flags d flags !! key
  = match last (filter (λ f : str * MdRenderer.flag_value, f.1 = key) flags) with
    | Some f => Some (MdRenderer.flag_text f.2)
    | None => d !! key
    end.
Proof.
  unfold store_flags. revert d.
  induction flags as [|[fl v] flags IH]; intros d; [reflexivity|].
  cbn [foldl fst snd]. rewrite IH.
  destruct (decide (fl = key)) as [->|Hne].
  - rewrite filter_cons_True by reflexivity. rewrite last_cons.
    destruct (last _); [reflexivity|]. apply lookup_insert_eq.
  - rewrite filter_cons_False by exact Hne.
    destruct (last _); [reflexivity|]. apply lookup_insert_ne, Hne.
Qed.

Lemma store_row_flags (d : gmap str str) (cells : list source_cell) :
  store_row d cells = store_flags d (concat (map snd cells)).
Proof.
  unfold store_row. revert d.
  induction cells as [|[content flags] cells IH]; intros d; [reflexivity|].
  cbn [foldl map concat snd]. rewrite IH. unfold store_flags.
  rewrite foldl_app. reflexivity.
Qed.

Lemma measure_cell_colmax h k col c c1 i :
  MdRenderer.measure_cell h k col c = Ok c1 →
  MdRenderer.colscount c1 = MdRenderer.colscount c
  ∧ MdRenderer.colmax c1 !! i
    = (if decide (i = k)
       then Z.max (Z.of_nat (length (MdRenderer.text col)))
              <$> (MdRenderer.colmax c !! i)
       else MdRenderer.colmax c !! i).
Proof.
  unfold MdRenderer.measure_cell, MdRenderer.list_get, MdRenderer.list_set.
  destruct (MdRenderer.colmax c !! k) as [w|] eqn:Ew; [|discriminate].
  cbn [rbind].
  destruct (decide (k < length (MdRenderer.colmax c))) as [Hk|]; [|discriminate].
  cbn [rbind].
  assert (<[k:=Z.max (Z.of_nat (length (MdRenderer.text col))) w]>
            (MdRenderer.colmax c) !! i
          = (if decide (i = k)
             then Z.max (Z.of_nat (length (MdRenderer.text col)))
                    <$> (MdRenderer.colmax c !! i)
             else MdRenderer.colmax c !! i)) as Hins.
  { destruct (decide (i = k)) as [->|Hne].
    - rewrite list_lookup_insert_eq by exact Hk. rewrite Ew. reflexivity.
    - apply list_lookup_insert_ne. congruence. }
  destruct (MdRenderer.deref h (MdRenderer.flags col) !! ("align" : str))
    as [[|a v]|]; [discriminate| |].
  - cbn [Py.getitem lookup list_lookup rbind].
    destruct (decide (k < length (MdRenderer.align c))); [|discriminate].
    cbn [rbind]. intros [= <-]. split; [reflexivity | exact Hins].
  - intros [= <-]. split; [reflexivity | exact Hins].
Qed.

Lemma measure_row_colmax h row k c c' i :
  MdRenderer.measure_row h row k c = Ok c' →
  MdRenderer.colscount c' = MdRenderer.colscount c
  ∧ MdRenderer.colmax c' !! i
    = match (if decide (k ≤ i) then row !! (i - k) else None) with
      | Some col => Z.max (Z.of_nat (length (MdRenderer.text col)))
                      <$> (MdRenderer.colmax c !! i)
      | None => MdRenderer.colmax c !! i
      end.
Proof.
  revert k c. induction row as [|col row IH]; intros k c.
  - intros [= <-]. split; [reflexivity|]. destruct (decide (k ≤ i)); reflexivity.
  - cbn [MdRenderer.measure_row].
    destruct (MdRenderer.measure_cell h k col c) as [c1|] eqn:E1; [|discriminate].
    cbn [rbind]. intros E2.
    destruct (IH _ _ E2) as [Hcc ->].
    destruct (measure_cell_colmax _ _ _ _ _ i E1) as [Hcc1 ->].
    split; [congruence|].
    destruct (decide (S k ≤ i)) as [Hlt|Hge].
    + destruct (decide (k ≤ i)); [|lia].
      replace (i - k) with (S (i - S k)) by lia. cbn [lookup list_lookup].
      destruct (decide (i = k)); [lia|]. reflexivity.
    + destruct (decide (i = k)) as [->|Hne].
      * destruct (decide (k ≤ k)); [|lia]. rewrite Nat.sub_diag. reflexivity.
      * destruct (decide (k ≤ i)); [lia|]. reflexivity.
Qed.

Lemma measure_colmax h rows c c' i :
  MdRenderer.measure h rows c = Ok c' →
  MdRenderer.colscount c' = Nat.max (max_list (map length rows)) (MdRenderer.colscount c)
  ∧ MdRenderer.colmax c' !! i
    = (λ w, foldl (λ w row, match row !! i with
                            | Some col => Z.max (Z.of_nat (length (MdRenderer.text col))) w
                            | None => w
                            end) w rows) <$> (MdRenderer.colmax c !! i).
Proof.
  revert c. induction rows as [|row rows IH]; intros c.
  - intros [= <-]. split; [reflexivity|].
    destruct (MdRenderer.colmax c !! i); reflexivity.
  - cbn [MdRenderer.measure].
    set (c0 := MdRenderer.Columns _ _ _).
    destruct (MdRenderer.measure_row h row 0 c0) as [c1|] eqn:E1; [|discriminate].
    cbn [rbind]. intros E2.
    destruct (IH _ E2) as [-> ->].
    destruct (measure_row_colmax _ _ _ _ _ i E1) as [-> ->].
    split; [subst c0; cbn; lia|].
    destruct (decide (0 ≤ i)); [|lia]. rewrite Nat.sub_0_r.
    subst c0. cbn [MdRenderer.colmax foldl].
    destruct (row !! i), (MdRenderer.colmax c !! i); reflexivity.
Qed.

Lemma widest_is_column_width rows i :
  foldl (λ w row, match row !! i with
                  | Some col => Z.max (Z.of_nat (length (MdRenderer.text col))) w
                  | None => w
                  end) 0%Z rows
  = column_width rows i.
Proof.
  unfold column_width.
  assert (∀ w0, (0 <= w0)%Z →
               foldl (λ w row, match row !! i with
                               | Some col =>
                                   Z.max (Z.of_nat (length (MdRenderer.text col))) w
                               | None => w
                               end) w0 rows
               = Z.max w0 (foldr Z.max 0%Z
                             (omap (λ row : list MdRenderer.cell,
                                      (λ col, Z.of_nat (length (MdRenderer.text col)))
                                        <$> (row !! i)) rows))) as Hgen.
  { induction rows as [|row rows IH]; intros w0 Hw0.
    - cbn. lia.
    - cbn [foldl omap list_omap].
      destruct (row !! i) as [col|]; cbn [fmap option_fmap option_map foldr].
      + rewrite IH by lia. lia.
      + apply IH, Hw0. }
  rewrite Hgen by lia.
  assert (0 ≤ foldr Z.max 0
                 (omap (λ row : list MdRenderer.cell,
                          (λ col, Z.of_nat (length (MdRenderer.text col)))
                            <$> (row !! i)) rows))%Z; [|lia].
  clear. induction rows as [|row rows IH]; cbn [omap list_omap foldr]; [lia|].
  destruct (row !! i); cbn [fmap option_fmap option_map foldr]; lia.
Qed.

Lemma ljust_length (s : str) w fill :
  Z.of_nat (length (Py.ljust s w fill)) = Z.max (Z.of_nat (length s)) w.
Proof. unfold Py.ljust. rewrite length_app, length_replicate. lia. Qed.

End TableLayout.

Lemma decoded_cells_share_alignment (rows : list (list source_cell)) (k : nat)
    (cells : list source_cell) (col : MdRenderer.cell) :
  rows !! k = Some cells →
  col ∈ decoded_row k cells →
  cell_align (map (store_row ∅) rows) col
  = (λ f : str * MdRenderer.flag_value, MdRenderer.flag_text f.2)
      <$> last (filter (λ f : str * MdRenderer.flag_value, f.1 = ("align" : str))
                  (concat (map snd cells))).
Proof.
  intros Hk Hcol. unfold decoded_row in Hcol.
  apply list_elem_of_fmap in Hcol as (c & -> & _).
  unfold cell_align, MdRenderer.deref. cbn [MdRenderer.flags].
  rewrite list_lookup_fmap, Hk. cbn [fmap option_fmap option_map default].
  unfold id. rewrite store_row_flags, store_flags_lookup.
  destruct (last _); [reflexivity | apply lookup_empty].
Qed.

(** In a table decoded by [table], every cell of a row meets the same
    [align] value whatever flags its own [table_cell] call had: the one of
    the last [align] flag written anywhere in its row. *)
Theorem row_cells_share_alignment (hrows brows : list (list source_cell))
    (n : nat) (h : MdRenderer.heap) (hr br : list (list MdRenderer.cell))
    (k : nat) (row : list MdRenderer.cell) (col : MdRenderer.cell) :
  Forall splittable (hrows ++ brows) →
  Forall (λ cells, row_chunks cells ≤ n) (hrows ++ brows) →
  length hrows ≤ n → length brows ≤ n →
  MdRenderer.table_rows n (encode_rows hrows) (encode_rows brows)
  = Some (Ok (h, hr, br)) →
  (hr ++ br) !! k = Some row →
  col ∈ row →
  ∃ cells,
    (hrows ++ brows) !! k = Some cells
    ∧ cell_align h col
      = (λ f : str * MdRenderer.flag_value, MdRenderer.flag_text f.2)
          <$> last (filter (λ f : str * MdRenderer.flag_value, f.1 = ("align" : str))
                      (concat (map snd cells))).
Proof.
  intros Hsplit Hn Hh Hb Hrows Hk Hcol.
  rewrite (table_rows_round_trip_eq hrows brows n Hsplit Hn Hh Hb) in Hrows.
  injection Hrows as <- <- <-.
  rewrite <- imap_app, list_lookup_imap in Hk.
  destruct ((hrows ++ brows) !! k) as [cells|] eqn:E; [|discriminate].
  injection Hk as <-. exists cells. split; [reflexivity|].
  apply (decoded_cells_share_alignment _ k cells col E Hcol).
Qed.

Lemma row_cells_share_alignment_witness :
  let hrows : list (list source_cell) :=
    [[("A" : str, [("align" : str, MdRenderer.FStr "left")]);
      ("B" : str, [("align" : str, MdRenderer.FStr "right")])]] in
  ∃ cells,
    (hrows ++ []) !! 0 = Some cells
    ∧ cell_align (map (store_row ∅) (hrows ++ [])) (MdRenderer.Cell 0 "A")
      = (λ f : str * MdRenderer.flag_value, MdRenderer.flag_text f.2)
          <$> last (filter (λ f : str * MdRenderer.flag_value, f.1 = ("align" : str))
                      (concat (map snd cells))).
Proof.
  intros hrows.
  apply (row_cells_share_alignment hrows [] 4
           (map (store_row ∅) (hrows ++ [])) (imap decoded_row hrows) []
           0 (decoded_row 0 [("A" : str, [("align" : str, MdRenderer.FStr "left")]);
                             ("B" : str, [("align" : str, MdRenderer.FStr "right")])])
           (MdRenderer.Cell 0 "A")).
  - unfold splittable.
    repeat first [apply Forall_nil | apply Forall_cons; split; cbn [fst snd]];
      (split; cbn; intros H;
       repeat (apply elem_of_cons in H as [H|H]; [discriminate H|]); inversion H).
  - repeat constructor; cbn; lia.
  - cbn. lia.
  - cbn. lia.
  - apply (table_rows_round_trip_eq hrows [] 4).
    + unfold splittable.
      repeat first [apply Forall_nil | apply Forall_cons; split; cbn [fst snd]];
        (split; cbn; intros H;
         repeat (apply elem_of_cons in H as [H|H]; [discriminate H|]); inversion H).
    + repeat constructor; cbn; lia.
    + cbn. lia.
    + cbn. lia.
  - reflexivity.
  - apply list_elem_of_here.
Defined.

(** For every table the measuring pass gets through, the width kept
    for a column is the length of its longest cell text and the number of
    columns is the length of the longest row. *)
Theorem column_widths_are_maxima (h : MdRenderer.heap)
    (rows : list (list MdRenderer.cell)) (c : MdRenderer.columns) (i : nat) :
  MdRenderer.measure h rows MdRenderer.columns_init = Ok c →
  i < 100 →
  MdRenderer.colmax c !! i = Some (column_width rows i)
  ∧ MdRenderer.colscount c = max_list (map length rows).
Proof.
  intros E Hi. destruct (measure_colmax h rows _ _ i E) as [-> ->].
  split; [|cbn; lia].
  cbn [MdRenderer.columns_init MdRenderer.colmax].
  rewrite lookup_replicate_2 by exact Hi. cbn [fmap option_fmap option_map].
  rewrite widest_is_column_width. reflexivity.
Qed.

Lemma column_widths_are_maxima_witness :
  ∃ c, MdRenderer.measure [∅] [[MdRenderer.Cell 0 "A"; MdRenderer.Cell 0 "Long"];
                               [MdRenderer.Cell 0 "123"]]
         MdRenderer.columns_init = Ok c
       ∧ MdRenderer.colmax c !! 0 = Some 3%Z ∧ MdRenderer.colscount c = 2.
Proof.
  destruct (MdRenderer.measure [∅] [[MdRenderer.Cell 0 "A"; MdRenderer.Cell 0 "Long"];
                                    [MdRenderer.Cell 0 "123"]]
              MdRenderer.columns_init) as [c|e] eqn:E.
  - exists c. split; [reflexivity|].
    apply (column_widths_are_maxima [∅] _ c 0 E). lia.
  - vm_compute in E. discriminate.
Defined.

(** The rule under a column is as wide as the column, and never
    shorter than its colons and one dash: at least 3 characters for a
    centred column, 2 for a left or right aligned one, 1 otherwise. *)
Theorem rule_fills_column (c : MdRenderer.columns) (i : nat) (r r' a : str)
    (w : Z) :
  MdRenderer.colmax c !! i = Some w →
  MdRenderer.align c !! i = Some a →
  MdRenderer.emit_rule c i r = Ok r' →
  ∃ seg : str,
    r' = r ++ (if decide (0 < i) then " | " else "") ++ seg
    ∧ Z.of_nat (length seg) = Z.max w (rule_width a).
Proof.
  intros Hw Ha. unfold MdRenderer.emit_rule, MdRenderer.list_get, rule_width.
  rewrite Hw, Ha. cbn [rbind].
  assert (∀ x : str, (if decide (0 < i) then r ++ " | " else r) ++ x
                     = r ++ (if decide (0 < i) then " | " else "") ++ x) as Hpre.
  { intros x. destruct (decide (0 < i)); [rewrite <- app_assoc|]; reflexivity. }
  repeat case_decide; intros [= <-]; rewrite Hpre; eexists; (split; [reflexivity|]);
    unfold Py.ljust; cbn [app length];
    rewrite ?length_app, ?length_replicate; cbn [length]; lia.
Qed.

Lemma rule_fills_column_witness :
  ∃ seg : str,
    (":--- | :----:" : str) = ":---" ++ " | " ++ seg
    ∧ Z.of_nat (length seg) = Z.max 6 (rule_width "c").
Proof.
  apply (rule_fills_column
           (MdRenderer.Columns 2 [4%Z; 6%Z] [("l" : str); ("c" : str)])
           1 ":---" ":--- | :----:" "c" 6).
  - reflexivity.
  - reflexivity.
  - vm_compute. reflexivity.
Defined.

(** ** Math rules: exactly what they match *)

Section MathRules.

Lemma startswith_app (p rest : str) : Py.startswith (p ++ rest) p = true.
Proof.
  induction p as [|c p IH]; [destruct rest; reflexivity|].
  cbn [app Py.startswith]. rewrite Ascii.eqb_refl. exact IH.
Qed.

Lemma block_math_body_no_dollar (s body rest : str) :
  MathBlockMixin.block_math_body s = Some (body, rest) → "$"%char ∉ body.
Proof.
  revert body. induction s as [|c s IH]; intros body; cbn; [discriminate|].
  destruct (Ascii.eqb_spec c "$") as [->|Hc].
  - destruct s as [|c' s]; [discriminate|].
    destruct (Ascii.eqb c' "$"); [|discriminate].
    intros [= <- <-]. apply not_elem_of_nil.
  - destruct (MathBlockMixin.block_math_body s) as [[b r]|]; [|discriminate].
    intros [= <- <-]. apply not_elem_of_cons. split; [congruence|].
    apply IH. reflexivity.
Qed.

Lemma block_math_body_complete (body rest : str) :
  "$"%char ∉ body →
  MathBlockMixin.block_math_body (body ++ "$$" ++ rest) = Some (body, rest).
Proof.
  induction body as [|c body IH]; intros Hd; [reflexivity|].
  apply not_elem_of_cons in Hd as [Hc Hd]. cbn [app MathBlockMixin.block_math_body].
  destruct (Ascii.eqb_spec c "$") as [->|_]; [congruence|].
  rewrite (IH Hd). reflexivity.
Qed.

Lemma math_rest_plain (s more rest : str) :
  MathInlineMixin.math_rest s = Some (more, rest) →
  ("$"%char ∉ more) ∧ (LF ∉ more).
Proof.
  revert more. induction s as [|c s IH]; intros more; cbn; [discriminate|].
  destruct (Ascii.eqb_spec c "$") as [->|Hc].
  - intros [= <- <-]. split; apply not_elem_of_nil.
  - destruct (Ascii.eqb_spec c LF) as [->|Hn]; [discriminate|].
    destruct (MathInlineMixin.math_rest s) as [[m r]|]; [|discriminate].
    intros [= <- <-]. destruct (IH m eq_refl) as [H1 H2].
    split; apply not_elem_of_cons; split; congruence || assumption.
Qed.

Lemma math_rest_complete (more rest : str) :
  "$"%char ∉ more → LF ∉ more →
  MathInlineMixin.math_rest (more ++ "$" ++ rest) = Some (more, rest).
Proof.
  induction more as [|c more IH]; intros Hd Hn; [reflexivity|].
  apply not_elem_of_cons in Hd as [Hc Hd]. apply not_elem_of_cons in Hn as [Hc' Hn].
  cbn [app MathInlineMixin.math_rest].
  destruct (Ascii.eqb_spec c "$") as [->|_]; [congruence|].
  destruct (Ascii.eqb_spec c LF) as [->|_]; [congruence|].
  rewrite (IH Hd Hn). reflexivity.
Qed.

Lemma lower_run_lower (s : str) :
  Forall (λ c, MathBlockMixin.is_lower c = true) (MathBlockMixin.lower_run s).1.
Proof.
  induction s as [|c s IH]; cbn; [constructor|].
  destruct (MathBlockMixin.is_lower c) eqn:E; [|constructor].
  destruct (MathBlockMixin.lower_run s) as [run rest]. cbn in *.
  constructor; assumption.
Qed.

Lemma lower_run_app (letters tail : str) :
  Forall (λ c, MathBlockMixin.is_lower c = true) letters →
  match tail with c :: _ => MathBlockMixin.is_lower c = false | [] => True end →
  MathBlockMixin.lower_run (letters ++ tail) = (letters, tail).
Proof.
  intros Hl Ht. induction Hl as [|c letters Hc _ IH]; cbn [app].
  - destruct tail as [|c tail]; [reflexivity|]. cbn. rewrite Ht. reflexivity.
  - cbn [MathBlockMixin.lower_run]. rewrite Hc, IH. reflexivity.
Qed.

Lemma split_at_first_first (pat s before after : str) :
  split_at_first pat s = Some (before, after) →
  not_before pat s (length before).
Proof.
  revert before. induction s as [|c s IH]; intros before.
  - unfold split_at_first. destruct (Py.startswith [] pat); [|discriminate].
    intros [= <- <-] k Hk. cbn in Hk. lia.
  - cbn [split_at_first]. destruct (Py.startswith (c :: s) pat) eqn:E.
    + intros [= <- <-] k Hk. cbn in Hk. lia.
    + destruct (split_at_first pat s) as [[b a]|]; [|discriminate].
      intros [= <- <-] k Hk. destruct k as [|k]; [exact E|].
      cbn [drop]. apply (IH b eq_refl). cbn in Hk. lia.
Qed.

Lemma split_at_first_unfold (pat s : str) :
  split_at_first pat s
  = if Py.startswith s pat then Some ([], drop (length pat) s)
    else match s with
         | [] => None
         | c :: s' =>
             match split_at_first pat s' with
             | Some (before, after) => Some (c :: before, after)
             | None => None
             end
         end.
Proof. destruct s; reflexivity. Qed.

Lemma split_at_first_complete (pat text rest : str) :
  not_before pat (text ++ pat ++ rest) (length text) →
  split_at_first pat (text ++ pat ++ rest) = Some (text, rest).
Proof.
  induction text as [|c text IH]; intros Hnot.
  - cbn [app]. rewrite split_at_first_unfold, startswith_app, drop_app_length.
    reflexivity.
  - pose proof (Hnot 0 ltac:(cbn; lia)) as H0. cbn [drop app] in H0.
    cbn [app split_at_first]. rewrite H0, IH; [reflexivity|].
    intros k Hk. apply (Hnot (S k)). cbn. lia.
Qed.

End MathRules.

(** [rules.block_math] matches exactly the inputs that open with [$$],
    go on without a [$] and then close with [$$]; a [$$] that is not
    closed this way does not match. The group is what stands between. *)
Theorem block_math_matches (s g rest : str) :
  MathBlockMixin.block_math s = Some (g, rest)
  ↔ s = "$$" ++ g ++ "$$" ++ rest ∧ ("$"%char ∉ g).
Proof.
  unfold MathBlockMixin.block_math. split.
  - destruct (Py.startswith s "$$") eqn:E; [|discriminate].
    apply startswith_prefix in E. intros B. split.
    + rewrite E. f_equal. apply block_math_body_sound, B.
    + apply (block_math_body_no_dollar _ _ _ B).
  - intros [-> Hd]. rewrite startswith_app.
    change (drop 2 ("$$" ++ g ++ "$$" ++ rest)) with (g ++ "$$" ++ rest).
    apply block_math_body_complete, Hd.
Qed.

(** [rules.math] matches exactly the inputs that open with [$], go on
    with one character that is not a line feed (it may be a [$]), then
    with characters that are neither [$] nor line feed, and close with
    [$]. *)
Theorem inline_math_matches (s g rest : str) :
  MathInlineMixin.math s = Some (g, rest)
  ↔ ∃ c more, g = c :: more ∧ s = "$" ++ g ++ "$" ++ rest
              ∧ c ≠ LF ∧ ("$"%char ∉ more) ∧ (LF ∉ more).
Proof.
  unfold MathInlineMixin.math. split.
  - destruct s as [|d [|c s]]; try discriminate.
    destruct (Ascii.eqb_spec d "$") as [->|_]; [|discriminate].
    destruct (Ascii.eqb_spec c LF) as [->|Hc]; [discriminate|]. cbn [andb negb].
    destruct (MathInlineMixin.math_rest s) as [[m r]|] eqn:M; [|discriminate].
    intros [= <- <-]. exists c, m.
    destruct (math_rest_plain _ _ _ M) as [H1 H2].
    apply math_rest_sound in M. subst s. auto.
  - intros (c & more & -> & -> & Hc & Hd & Hn).
    change ("$" ++ (c :: more) ++ "$" ++ rest)
      with ("$"%char :: c :: (more ++ "$" ++ rest)).
    cbv beta iota. rewrite Ascii.eqb_refl.
    destruct (Ascii.eqb_spec c LF) as [->|_]; [congruence|]. cbn [andb negb].
    rewrite (math_rest_complete _ _ Hd Hn). reflexivity.
Qed.

(** [rules.block_latex] matches exactly the inputs that open with
    [\begin{name}] for an environment name, and contain the matching
    [\end{name}]; the text runs up to the first one. *)
Theorem block_latex_matches (s name text rest : str) :
  MathBlockMixin.block_latex s = Some (name, text, rest)
  ↔ s = "\begin{" ++ name ++ "}" ++ text ++ ("\end{" ++ name ++ "}") ++ rest
    ∧ env_name name
    ∧ not_before ("\end{" ++ name ++ "}")
        (text ++ ("\end{" ++ name ++ "}") ++ rest) (length text).
Proof.
  unfold MathBlockMixin.block_latex. split.
  - destruct (Py.startswith s "\begin{") eqn:E; [|discriminate].
    apply startswith_prefix in E. change (length (list_ascii_of_string "\begin{")) with 7 in E.
    pose proof (lower_run_sound (drop 7 s)) as Hrun.
    pose proof (lower_run_lower (drop 7 s)) as Hlow.
    destruct (MathBlockMixin.lower_run (drop 7 s)) as [letters s1].
    cbn [fst snd] in Hrun, Hlow.
    assert (∃ star s2,
               (match s1 with
                | c :: r => if Ascii.eqb c "*" then (["*"%char], r) else ([], s1)
                | [] => ([], s1)
                end) = (star, s2) ∧ s1 = star ++ s2
               ∧ (star = [] ∨ star = ["*"%char])) as (star & s2 & -> & Hs1 & Hstar).
    { destruct s1 as [|c r]; [exists [], []; auto|].
      destruct (Ascii.eqb_spec c "*") as [->|_];
        [exists ["*"%char], r; auto | exists [], (c :: r); auto]. }
    destruct s2 as [|c s3]; [discriminate|].
    destruct (Ascii.eqb_spec c "}") as [->|_]; [|discriminate].
    destruct (split_at_first ("\end{" ++ (letters ++ star) ++ "}") s3)
      as [[text' r]|] eqn:S; [|discriminate].
    intros [= <- <- <-].
    pose proof (split_at_first_first _ _ _ _ S) as Hfirst.
    apply split_at_first_sound in S.
    split; [|split].
    + rewrite E, Hrun, Hs1, S. rewrite <- !app_assoc. reflexivity.
    + exists letters, star. auto.
    + rewrite <- S. exact Hfirst.
  - intros (-> & (letters & star & -> & Hlow & Hstar) & Hfirst).
    rewrite startswith_app. change (length (list_ascii_of_string "\begin{")) with 7.
    replace (drop 7 ("\begin{" ++ (letters ++ star) ++ "}" ++ text
                       ++ ("\end{" ++ (letters ++ star) ++ "}") ++ rest))
      with (letters ++ (star ++ "}" ++ text
                          ++ ("\end{" ++ (letters ++ star) ++ "}") ++ rest))
      by (cbn [drop app list_ascii_of_string]; rewrite <- !app_assoc; reflexivity).
    rewrite lower_run_app; [|exact Hlow | destruct Hstar as [->| ->]; reflexivity].
    destruct Hstar as [->| ->].
    + change ([] ++ "}" ++ text ++ ("\end{" ++ (letters ++ []) ++ "}") ++ rest)
        with ("}"%char :: (text ++ ("\end{" ++ (letters ++ []) ++ "}") ++ rest)).
      cbv beta iota zeta. change (Ascii.eqb "}" "*") with false.
      cbv beta iota zeta. rewrite Ascii.eqb_refl.
      rewrite (split_at_first_complete _ _ _ Hfirst). reflexivity.
    + change (["*"%char] ++ "}" ++ text
                ++ ("\end{" ++ (letters ++ ["*"%char]) ++ "}") ++ rest)
        with ("*"%char :: "}"%char
                :: (text ++ ("\end{" ++ (letters ++ ["*"%char]) ++ "}") ++ rest)).
      cbv beta iota zeta. rewrite !Ascii.eqb_refl.
      rewrite (split_at_first_complete _ _ _ Hfirst). reflexivity.
Qed.

(** ** Paths and media types *)

Section Paths.

Lemma rfind_bounds c (s : str) :
  (-1 <= Py.rfind c s < Z.of_nat (length s))%Z.
Proof.
  induction s as [|x s IH]; cbn [Py.rfind length]; [lia|].
  destruct (Z.leb_spec 0 (Py.rfind c s)); [lia|].
  destruct (Ascii.eqb x c); lia.
Qed.

Lemma rfind_absent c (s : str) : c ∉ s → Py.rfind c s = (-1)%Z.
Proof.
  induction s as [|x s IH]; intros Hc; [reflexivity|].
  apply not_elem_of_cons in Hc as [Hx Hs]. cbn [Py.rfind]. rewrite (IH Hs).
  destruct (Ascii.eqb_spec x c); [congruence | reflexivity].
Qed.

Lemma rfind_app_absent c (a b : str) :
  c ∉ b → Py.rfind c (a ++ b) = Py.rfind c a.
Proof.
  intros Hb. induction a as [|x a IH]; cbn [app Py.rfind].
  - apply rfind_absent, Hb.
  - rewrite IH. reflexivity.
Qed.

Lemma rfind_last c (a b : str) :
  c ∉ b → Py.rfind c (a ++ c :: b) = Z.of_nat (length a).
Proof.
  intros Hb. induction a as [|x a IH]; cbn [app Py.rfind length].
  - rewrite (rfind_absent _ _ Hb), Ascii.eqb_refl. reflexivity.
  - rewrite IH. destruct (Z.leb_spec 0 (Z.of_nat (length a))); lia.
Qed.

Lemma splitext_last_dot (base ext : str) :
  "."%char ∉ ext → "/"%char ∉ ext →
  os_path.has_stem (last_component base) = true →
  os_path.splitext (base ++ "." ++ ext) = (base, "." ++ ext).
Proof.
  intros Hdot Hsep Hstem. unfold os_path.splitext.
  assert ("/"%char ∉ ("." ++ ext)) as Hsep'
    by (apply not_elem_of_cons; split; [discriminate | exact Hsep]).
  rewrite (rfind_app_absent _ base _ Hsep').
  change (base ++ "." ++ ext) with (base ++ "."%char :: ext).
  rewrite (rfind_last _ base _ Hdot).
  pose proof (rfind_bounds "/" base) as Hb.
  set (sep := Py.rfind "/" base) in *.
  destruct (Z.ltb_spec sep (Z.of_nat (length base))) as [_|]; [|lia].
  assert (Py.slice (base ++ "."%char :: ext) (sep + 1) (Z.of_nat (length base))
          = last_component base) as ->.
  { unfold last_component, Py.slice, Py.slice_from. fold sep.
    replace (sep + 1)%Z with (Z.of_nat (Z.to_nat (sep + 1))) by lia.
    rewrite !bound_nat, length_app. cbn [length].
    rewrite !Nat.min_l by lia.
    rewrite drop_app_le by lia. rewrite take_app_length'; [reflexivity|].
    rewrite length_drop. reflexivity. }
  rewrite Hstem. cbn [andb].
  unfold Py.slice_to, Py.slice_from. rewrite bound_nat, length_app.
  rewrite Nat.min_l by lia. rewrite take_app_length, drop_app_length. reflexivity.
Qed.

End Paths.

(** The media type of a file name is looked up under what follows its
    last dot, provided the last path component has a character other than
    a dot in front of it. *)
Theorem mime_type_by_extension (base ext : str) :
  "."%char ∉ ext → "/"%char ∉ ext →
  os_path.has_stem (last_component base) = true →
  EmbedImagesRenderer._mime_type (base ++ "." ++ ext)
  = EmbedImagesRenderer._mime_types !! ext.
Proof.
  intros Hdot Hsep Hstem. unfold EmbedImagesRenderer._mime_type.
  rewrite splitext_last_dot by assumption. reflexivity.
Qed.

Lemma mime_type_by_extension_witness :
  EmbedImagesRenderer._mime_type ("fig/plot.v2" ++ "." ++ "svg")
  = EmbedImagesRenderer._mime_types !! ("svg" : str).
Proof.
  apply (mime_type_by_extension "fig/plot.v2" "svg").
  - intros H; repeat (apply elem_of_cons in H as [H|H]; [discriminate H|]);
      inversion H.
  - intros H; repeat (apply elem_of_cons in H as [H|H]; [discriminate H|]);
      inversion H.
  - vm_compute. reflexivity.
Defined.

(** A local file whose name has no dot has no media type: embedding
    it stops with the unknown-mimetype error. *)
Theorem no_dot_no_mimetype `{Platform} (s : EmbedImagesRenderer.self) (src : str) :
  urlparse_scheme src = [] →
  os_path.exists_ (os_path.join (EmbedImagesRenderer.root_path s) src) = true →
  "."%char ∉ src →
  EmbedImagesRenderer._mime_type src = None
  ∧ EmbedImagesRenderer._to_data_src s src
    = Raise (ValueError ("Mimetype for '" ++ src ++ "' unknown.")).
Proof.
  intros Hscheme Hex Hdot.
  assert (EmbedImagesRenderer._mime_type src = None) as Hm.
  { unfold EmbedImagesRenderer._mime_type, os_path.splitext.
    rewrite (rfind_absent "." src Hdot).
    pose proof (rfind_bounds "/" src).
    destruct (Z.ltb_spec (Py.rfind "/" src) (-1)); [lia|]. reflexivity. }
  split; [exact Hm|].
  unfold EmbedImagesRenderer._to_data_src. rewrite Hscheme.
  rewrite bool_decide_eq_true_2 by reflexivity. cbn [negb].
  rewrite Hex, Hm. reflexivity.
Qed.

Lemma no_dot_no_mimetype_witness :
  EmbedImagesRenderer._mime_type "" = None
  ∧ EmbedImagesRenderer._to_data_src Sample.renderer ""
    = Raise (ValueError "Mimetype for '' unknown.").
Proof.
  apply (no_dot_no_mimetype Sample.renderer "").
  - vm_compute. reflexivity.
  - vm_compute. reflexivity.
  - apply not_elem_of_nil.
Defined.

(** A source that begins with a slash is looked up as it stands: the
    root directory of the renderer plays no part. *)
Theorem absolute_source_ignores_root `{Platform} (s s' : EmbedImagesRenderer.self)
    (src : str) :
  EmbedImagesRenderer.convert_svgs s = EmbedImagesRenderer.convert_svgs s' →
  Py.startswith src "/" = true →
  os_path.join (EmbedImagesRenderer.root_path s) src = src
  ∧ EmbedImagesRenderer._to_data_src s src = EmbedImagesRenderer._to_data_src s' src.
Proof.
  intros Hconv Habs.
  assert (∀ root, os_path.join root src = src) as Hjoin
    by (intros root; unfold os_path.join; rewrite Habs; reflexivity).
  split; [apply Hjoin|].
  unfold EmbedImagesRenderer._to_data_src. rewrite !Hjoin, Hconv. reflexivity.
Qed.

Lemma absolute_source_ignores_root_witness :
  os_path.join "lab" "/etc/logo.png" = ("/etc/logo.png" : str)
  ∧ EmbedImagesRenderer._to_data_src Sample.renderer "/etc/logo.png"
    = EmbedImagesRenderer._to_data_src (EmbedImagesRenderer.Self "other" true)
        "/etc/logo.png".
Proof.
  apply (absolute_source_ignores_root Sample.renderer
           (EmbedImagesRenderer.Self "other" true) "/etc/logo.png");
    reflexivity.
Defined.

(** What [_to_data_src] returns for a source it embeds: a display size
    comes with the data URI only when an SVG was rasterized, both numbers
    together and the PNG media type with them; otherwise the bytes of the
    file are embedded as they are under the media type of the extension. *)
Theorem embedded_source_shape `{Platform} (s : EmbedImagesRenderer.self)
    (src data_src : str) (width height : option nat) :
  EmbedImagesRenderer._to_data_src s src = Ok (Some data_src, width, height) →
  let filepath := os_path.join (EmbedImagesRenderer.root_path s) src in
  (∃ w h content,
      width = Some w ∧ height = Some h
      ∧ EmbedImagesRenderer.convert_svgs s = true
      ∧ EmbedImagesRenderer._mime_type src = Some ("image/svg+xml" : str)
      ∧ svg2png filepath = Some content
      ∧ data_src = EmbedImagesRenderer.data_uri "image/png" content)
  ∨ (∃ mimetype content,
        width = None ∧ height = None
        ∧ EmbedImagesRenderer._mime_type src = Some mimetype
        ∧ filesystem filepath = Some (File content)
        ∧ data_src = EmbedImagesRenderer.data_uri mimetype content).
Proof.
  intros E filepath. revert E. unfold EmbedImagesRenderer._to_data_src.
  fold filepath.
  destruct (negb (bool_decide (urlparse_scheme src = []))); [discriminate|].
  destruct (negb (os_path.exists_ filepath)); [discriminate|].
  destruct (EmbedImagesRenderer._mime_type src) as [mimetype|]; [|discriminate].
  destruct (EmbedImagesRenderer.convert_svgs s) eqn:Hconv; cbn [andb].
  - destruct (bool_decide (mimetype = "image/svg+xml")) eqn:Hsvg.
    + apply bool_decide_eq_true in Hsvg as ->.
      destruct (svg2png filepath) as [content|] eqn:Hpng; [|discriminate].
      destruct (image_size content) as [[w h]|]; [|discriminate].
      intros [= <- <- <-]. left. exists (EmbedImagesRenderer.display_size w),
        (EmbedImagesRenderer.display_size h), content. auto 10.
    + destruct (filesystem filepath) as [[content|]|]; try discriminate.
      intros [= <- <- <-]. right. exists mimetype, content. auto 10.
  - destruct (filesystem filepath) as [[content|]|]; try discriminate.
    intros [= <- <- <-]. right. exists mimetype, content. auto 10.
Qed.

Lemma embedded_source_shape_witness :
  (∃ w h content,
      (None : option nat) = Some w ∧ (None : option nat) = Some h
      ∧ EmbedImagesRenderer.convert_svgs Sample.renderer = true
      ∧ EmbedImagesRenderer._mime_type "img.png" = Some ("image/svg+xml" : str)
      ∧ svg2png (os_path.join "lab" "img.png") = Some content
      ∧ EmbedImagesRenderer.data_uri "image/png" Sample.png
        = EmbedImagesRenderer.data_uri "image/png" content)
  ∨ (∃ mimetype content,
        (None : option nat) = None ∧ (None : option nat) = None
        ∧ EmbedImagesRenderer._mime_type "img.png" = Some mimetype
        ∧ filesystem (os_path.join "lab" "img.png") = Some (File content)
        ∧ EmbedImagesRenderer.data_uri "image/png" Sample.png
          = EmbedImagesRenderer.data_uri mimetype content).
Proof.
  apply (embedded_source_shape Sample.renderer "img.png"
           (EmbedImagesRenderer.data_uri "image/png" Sample.png) None None).
  vm_compute. reflexivity.
Defined.

(** ** Block quotes and footnotes *)

Section Lines.

Lemma splitlines_line (l rest : str) :
  Forall (λ c, Py.is_linebreak c = false) l →
  Py.splitlines (l ++ LF :: rest) = l :: Py.splitlines rest.
Proof.
  induction 1 as [|c l Hc _ IH]; cbn [app Py.splitlines].
  - change (Py.is_linebreak LF) with true. cbv iota.
    change (Ascii.eqb LF Py.CR) with false. cbn [andb].
    destruct rest; reflexivity.
  - rewrite Hc, IH. reflexivity.
Qed.

Lemma splitlines_lines (lines : list str) :
  Forall (Forall (λ c, Py.is_linebreak c = false)) lines →
  Py.splitlines (concat (map (λ l, l ++ [LF]) lines)) = lines.
Proof.
  induction 1 as [|l lines Hl _ IH]; [reflexivity|].
  cbn [map concat]. rewrite <- app_assoc. cbn [app].
  rewrite (splitlines_line _ _ Hl), IH. reflexivity.
Qed.

Lemma split_line (l rest : str) :
  LF ∉ l → Py.split LF (l ++ LF :: rest) = l :: Py.split LF rest.
Proof.
  induction l as [|c l IH]; intros Hl; cbn [app Py.split].
  - rewrite Ascii.eqb_refl. reflexivity.
  - apply not_elem_of_cons in Hl as [Hc Hl].
    destruct (Ascii.eqb_spec c LF) as [->|_]; [congruence|].
    rewrite (IH Hl). reflexivity.
Qed.

Lemma split_lines (lines : list str) (final : str) :
  Forall (λ l, LF ∉ l) lines → LF ∉ final →
  Py.split LF (concat (map (λ l, l ++ [LF]) lines) ++ final) = lines ++ [final].
Proof.
  intros Hlines Hfinal. induction Hlines as [|l lines Hl _ IH].
  - apply split_no_sep, Hfinal.
  - cbn [map concat app]. rewrite <- !app_assoc. cbn [app].
    rewrite (split_line _ _ Hl), IH. reflexivity.
Qed.

Lemma rstrip_trimmed (l : str) :
  match last l with
  | Some c => Py.is_whitespace c = false
  | None => True
  end →
  Py.rstrip l = l.
Proof.
  unfold Py.rstrip. induction l as [|c l IH]; intros Hl; [reflexivity|].
  cbn [foldr]. destruct l as [|c' l].
  - cbn in *. rewrite Hl. reflexivity.
  - rewrite last_cons_cons in Hl. rewrite (IH Hl). reflexivity.
Qed.

Lemma strip_trimmed (l : str) : trimmed l → Py.rstrip (Py.lstrip l) = l.
Proof.
  intros [Hhead Hlast].
  assert (Py.lstrip l = l) as ->
    by (destruct l; [reflexivity | cbn; rewrite Hhead; reflexivity]).
  apply rstrip_trimmed, Hlast.
Qed.

End Lines.

(** [block_quote] puts [> ] in front of every non-empty line of a text
    and leaves the empty lines empty; each line keeps its line feed. *)
Theorem block_quote_marks_lines (lines : list str) :
  Forall (Forall (λ c, Py.is_linebreak c = false)) lines →
  MdRenderer.block_quote (concat (map (λ l, l ++ [LF]) lines))
  = concat (map (λ l : str,
                   (match l with _ :: _ => "> " | [] => "" end) ++ l ++ [LF])
              lines).
Proof.
  intros Hlines. unfold MdRenderer.block_quote.
  rewrite (splitlines_lines _ Hlines). clear Hlines.
  lazymatch goal with
  | |- foldl ?F [] lines = concat (map ?L lines) =>
      assert (∀ r : str, foldl F r lines = r ++ concat (map L lines)) as Hf
  end.
  { induction lines as [|l lines IH]; intros r.
    - symmetry. apply app_nil_r.
    - cbn [foldl map concat]. rewrite IH, <- !app_assoc. reflexivity. }
  apply (Hf []).
Qed.

Lemma block_quote_marks_lines_witness :
  MdRenderer.block_quote
    (concat (map (λ l : str, l ++ [LF]) [("a" : str); ("" : str); ("b c" : str)]))
  = concat (map (λ l : str,
                   (match l with _ :: _ => "> " | [] => "" end) ++ l ++ [LF])
              [("a" : str); ("" : str); ("b c" : str)]).
Proof.
  apply (block_quote_marks_lines [("a" : str); ("" : str); ("b c" : str)]).
  repeat constructor.
Defined.

(** [footnote_item] writes the key line and then every line of the
    body, the last line too, indented by two spaces; lines without blanks
    at their ends are kept as they are. *)
Theorem footnote_item_indents_lines (key : str) (lines : list str) (final : str) :
  Forall (λ l, LF ∉ l) lines → LF ∉ final →
  Forall trimmed lines → trimmed final →
  MdRenderer.footnote_item key (concat (map (λ l, l ++ [LF]) lines) ++ final)
  = "[^" ++ key ++ "]:" ++ [LF]
    ++ concat (map (λ l : str, "  " ++ l ++ [LF]) (lines ++ [final])).
Proof.
  intros Hlines Hfinal Htrim Htrimf. unfold MdRenderer.footnote_item.
  rewrite (split_lines _ _ Hlines Hfinal).
  assert (Forall trimmed (lines ++ [final])) as Hall
    by (apply Forall_app; split;
        [exact Htrim | apply Forall_cons; split; [exact Htrimf | constructor]]).
  clear Hlines Hfinal Htrim Htrimf.
  generalize dependent (lines ++ [final]). clear lines final.
  intros lines Hall.
  rewrite !app_assoc. generalize ((("[^" ++ key) ++ "]:") ++ [LF]) as r.
  induction Hall as [|l lines Hl _ IH]; intros r.
  - symmetry. apply app_nil_r.
  - cbn [foldl map concat]. rewrite IH, (strip_trimmed _ Hl), <- !app_assoc.
    reflexivity.
Qed.

Lemma footnote_item_indents_lines_witness :
  MdRenderer.footnote_item "1"
    (concat (map (λ l : str, l ++ [LF]) [("first" : str)]) ++ "second")
  = "[^" ++ "1" ++ "]:" ++ [LF]
    ++ concat (map (λ l : str, "  " ++ l ++ [LF]) ([("first" : str)] ++ [("second" : str)])).
Proof.
  apply (footnote_item_indents_lines "1" [("first" : str)] "second").
  - repeat constructor. intros H.
    repeat (apply elem_of_cons in H as [H|H]; [discriminate H|]). inversion H.
  - intros H.
    repeat (apply elem_of_cons in H as [H|H]; [discriminate H|]). inversion H.
  - repeat constructor.
  - repeat constructor.
Defined.

(** ** Clearing outputs by tag *)

Section ClearOutput.

Import ClearOutputByTagPreprocessor.

Lemma covers_all (w t : gset str) : size (w ∩ t) = size w ↔ w ⊆ t.
Proof.
  split.
  - intros Hsize.
    pose proof (set_subseteq_size_eq (w ∩ t) w ltac:(set_solver) ltac:(lia)) as Heq.
    set_solver.
  - intros Hsub. f_equal. set_solver.
Qed.

Lemma meets_none (w t : gset str) : size (w ∩ t) = 0 ↔ w ## t.
Proof. rewrite size_empty_iff. set_solver. Qed.

Lemma pop_fields_spec (remove : gset str) (m : metadata) :
  tags (pop_fields remove m)
  = (if decide (("tags" : str) ∈ remove) then None else tags m)
  ∧ ∀ k, fields (pop_fields remove m) !! k
         = if decide (k ∈ remove) then None else fields m !! k.
Proof.
  unfold pop_fields.
  set (P := λ (r : metadata) (X : gset str),
              tags r = (if decide (("tags" : str) ∈ X) then None else tags m)
              ∧ ∀ k, fields r !! k
                     = if decide (k ∈ X) then None else fields m !! k).
  change (P (set_fold pop m remove) remove).
  apply (set_fold_ind_L P); subst P; cbn beta.
  - split; [reflexivity|]. intros k. reflexivity.
  - intros x X r Hx [Ht Hf]. unfold pop. split.
    + destruct (decide (x = "tags")) as [->|Hne]; cbn [tags].
      * rewrite decide_True by set_solver. reflexivity.
      * rewrite Ht. destruct (decide (("tags" : str) ∈ X)).
        -- rewrite decide_True by set_solver. reflexivity.
        -- rewrite decide_False by set_solver. reflexivity.
    + intros k.
      assert (fields (if decide (x = "tags")
                      then Metadata None (delete x (fields r))
                      else Metadata (tags r) (delete x (fields r)))
              = delete x (fields r)) as -> by (destruct (decide (x = "tags")); reflexivity).
      destruct (decide (k = x)) as [->|Hne].
      * rewrite lookup_delete_eq, decide_True by set_solver. reflexivity.
      * rewrite lookup_delete_ne, Hf by congruence.
        destruct (decide (k ∈ X)).
        -- rewrite decide_True by set_solver. reflexivity.
        -- rewrite decide_False by set_solver. reflexivity.
Qed.

Lemma metadata_eq (m1 m2 : metadata) :
  tags m1 = tags m2 → (∀ k, fields m1 !! k = fields m2 !! k) → m1 = m2.
Proof.
  destruct m1, m2. cbn. intros -> Hf. f_equal. apply map_eq, Hf.
Qed.

Lemma pop_fields_twice (remove : gset str) (m : metadata) :
  pop_fields remove (pop_fields remove m) = pop_fields remove m.
Proof.
  destruct (pop_fields_spec remove (pop_fields remove m)) as [Ht Hf].
  destruct (pop_fields_spec remove m) as [Ht' Hf'].
  apply metadata_eq.
  - rewrite Ht, Ht'. destruct (decide (("tags" : str) ∈ remove)); reflexivity.
  - intros k. rewrite Hf, Hf'. destruct (decide (k ∈ remove)); reflexivity.
Qed.

End ClearOutput.

Lemma selected_iff (s : ClearOutputByTagPreprocessor.self) (tags : gset str) :
  ClearOutputByTagPreprocessor.selected s tags = true
  ↔ (∀ w, ClearOutputByTagPreprocessor.with_tags s = Some w → w ⊆ tags)
    ∧ (∀ w, ClearOutputByTagPreprocessor.without_tags s = Some w → w ## tags).
Proof.
  unfold ClearOutputByTagPreprocessor.selected.
  rewrite andb_true_iff.
  destruct (ClearOutputByTagPreprocessor.with_tags s) as [w1|],
           (ClearOutputByTagPreprocessor.without_tags s) as [w2|];
    rewrite ?bool_decide_eq_true, ?covers_all, ?meets_none; split.
  - intros [H1 H2]. split; intros w [= <-]; assumption.
  - intros [H1 H2]. split; [apply H1 | apply H2]; reflexivity.
  - intros [H1 _]. split; [intros w [= <-]; assumption | discriminate].
  - intros [H1 _]. split; [apply H1|]; reflexivity.
  - intros [_ H2]. split; [discriminate | intros w [= <-]; assumption].
  - intros [_ H2]. split; [|apply H2]; reflexivity.
  - intros _. split; discriminate.
  - intros _. split; reflexivity.
Qed.

(** A code cell is cleared exactly when its tags include every tag of
    [with_tags] and none of [without_tags], an absent set asking
    nothing. The two length comparisons of the code say this. *)
Theorem cleared_cells_selected (s : ClearOutputByTagPreprocessor.self)
    (tags : gset str) :
  ClearOutputByTagPreprocessor.selected s tags = true
  ↔ (∀ w, ClearOutputByTagPreprocessor.with_tags s = Some w → w ⊆ tags)
    ∧ (∀ w, ClearOutputByTagPreprocessor.without_tags s = Some w → w ## tags).
Proof. apply selected_iff. Qed.

(** Running the preprocessor on a cell it has already gone over
    changes nothing more. *)
Theorem preprocess_cell_idempotent (s : ClearOutputByTagPreprocessor.self)
    (c : ClearOutputByTagPreprocessor.cell) :
  ClearOutputByTagPreprocessor.preprocess_cell s
    (ClearOutputByTagPreprocessor.preprocess_cell s c)
  = ClearOutputByTagPreprocessor.preprocess_cell s c.
Proof.
  assert (ClearOutputByTagPreprocessor.preprocess_cell s c = c
          ∨ (ClearOutputByTagPreprocessor.cell_type c = "code"
             ∧ ClearOutputByTagPreprocessor.preprocess_cell s c
               = ClearOutputByTagPreprocessor.Cell
                   (ClearOutputByTagPreprocessor.cell_type c)
                   (ClearOutputByTagPreprocessor.pop_fields
                      (ClearOutputByTagPreprocessor.remove_metadata_fields s)
                      <$> ClearOutputByTagPreprocessor.meta c) [] None))
    as [Hc|[Hcode Hc]].
  { unfold ClearOutputByTagPreprocessor.preprocess_cell.
    destruct (decide (ClearOutputByTagPreprocessor.cell_type c = "code"));
      [|left; reflexivity].
    destruct (ClearOutputByTagPreprocessor.selected s _);
      [right; split; [assumption | reflexivity] | left; reflexivity]. }
  - rewrite !Hc. reflexivity.
  - rewrite Hc. unfold ClearOutputByTagPreprocessor.preprocess_cell.
    cbn [ClearOutputByTagPreprocessor.cell_type ClearOutputByTagPreprocessor.meta].
    rewrite decide_True by exact Hcode.
    destruct (ClearOutputByTagPreprocessor.selected s _); [|reflexivity].
    f_equal. destruct (ClearOutputByTagPreprocessor.meta c) as [m|]; [|reflexivity].
    cbn. f_equal. apply pop_fields_twice.
Qed.

(** The preprocessor the script builds, with [keep] as the only tag to
    spare: a code cell tagged [keep] comes back as it was; any other code
    cell comes back without outputs and execution count, its metadata
    without [collapsed] and [scrolled] and otherwise as before, its tags
    included. *)
Theorem keep_spares_cell (c : ClearOutputByTagPreprocessor.cell) :
  ClearOutputByTagPreprocessor.cell_type c = ("code" : str) →
  let c' := ClearOutputByTagPreprocessor.preprocess_cell
              ClearOutputByTagPreprocessor.keeping c in
  (("keep" : str) ∈ ClearOutputByTagPreprocessor.cell_tags c → c' = c)
  ∧ (("keep" : str) ∉ ClearOutputByTagPreprocessor.cell_tags c →
     ClearOutputByTagPreprocessor.outputs c' = []
     ∧ ClearOutputByTagPreprocessor.execution_count c' = None
     ∧ ClearOutputByTagPreprocessor.cell_tags c'
       = ClearOutputByTagPreprocessor.cell_tags c
     ∧ ∀ m, ClearOutputByTagPreprocessor.meta c = Some m →
            ∃ m', ClearOutputByTagPreprocessor.meta c' = Some m'
                  ∧ ∀ k : str, ClearOutputByTagPreprocessor.fields m' !! k
                         = if decide (k = "collapsed" ∨ k = "scrolled") then None
                           else ClearOutputByTagPreprocessor.fields m !! k).
Proof.
  intros Hcode c'. subst c'.
  unfold ClearOutputByTagPreprocessor.preprocess_cell.
  rewrite decide_True by exact Hcode.
  pose proof (selected_iff ClearOutputByTagPreprocessor.keeping
                (ClearOutputByTagPreprocessor.cell_tags c)) as Hsel.
  cbn [ClearOutputByTagPreprocessor.keeping
         ClearOutputByTagPreprocessor.with_tags
         ClearOutputByTagPreprocessor.without_tags
         ClearOutputByTagPreprocessor.remove_metadata_fields] in *.
  split.
  - intros Hkeep.
    destruct (ClearOutputByTagPreprocessor.selected _ _); [|reflexivity].
    destruct Hsel as [Hsel _]. destruct (Hsel eq_refl) as [_ Hdis].
    specialize (Hdis _ eq_refl). apply disjoint_singleton_l in Hdis.
    contradiction.
  - intros Hkeep.
    destruct (ClearOutputByTagPreprocessor.selected _ _).
    2:{ destruct Hsel as [_ Hsel].
        assert (false = true); [|discriminate].
        apply Hsel. split; [discriminate|]. intros w [= <-].
        apply disjoint_singleton_l, Hkeep. }
    cbn [ClearOutputByTagPreprocessor.outputs
           ClearOutputByTagPreprocessor.execution_count
           ClearOutputByTagPreprocessor.meta].
    split; [reflexivity|]. split; [reflexivity|].
    unfold ClearOutputByTagPreprocessor.cell_tags.
    cbn [ClearOutputByTagPreprocessor.meta].
    destruct (ClearOutputByTagPreprocessor.meta c) as [m|];
      cbn [fmap option_fmap option_map]; [|split; [reflexivity | discriminate]].
    destruct (pop_fields_spec {[("collapsed" : str); ("scrolled" : str)]} m) as [Ht Hf].
    split.
    + rewrite Ht. rewrite decide_False; [reflexivity|].
      intros Hin. apply elem_of_union in Hin as [Hin|Hin];
        apply elem_of_singleton in Hin; discriminate.
    + intros m0 [= <-]. eexists. split; [reflexivity|]. intros k. rewrite Hf.
      destruct (decide (k ∈ ({[("collapsed" : str); ("scrolled" : str)]} : gset str)))
        as [Hin|Hin].
      * rewrite decide_True; [reflexivity|].
        apply elem_of_union in Hin as [Hin|Hin];
          apply elem_of_singleton in Hin; auto.
      * rewrite decide_False; [reflexivity|].
        intros [->| ->]; apply Hin;
          [apply elem_of_union_l | apply elem_of_union_r];
          apply elem_of_singleton; reflexivity.
Qed.

Lemma keep_spares_cell_witness :
  let c := ClearOutputByTagPreprocessor.Cell "code"
             (Some (ClearOutputByTagPreprocessor.Metadata (Some [("keep" : str)]) ∅))
             [("42" : str)] (Some 3%Z) in
  ClearOutputByTagPreprocessor.preprocess_cell ClearOutputByTagPreprocessor.keeping c
  = c.
Proof.
  intros c. apply (keep_spares_cell c eq_refl).
  unfold c, ClearOutputByTagPreprocessor.cell_tags.
  cbn [ClearOutputByTagPreprocessor.meta ClearOutputByTagPreprocessor.tags].
  apply elem_of_list_to_set, list_elem_of_here.
Defined.

(** ** The wrapper tag of a serialized fragment *)

Section OuterTag.

Lemma tag_run_stops (name rest : str) :
  ">"%char ∉ name →
  EmbedImagesRenderer.tag_run (name ++ ">" ++ rest) = (name, ">" ++ rest).
Proof.
  induction name as [|c name IH]; intros Hn; [reflexivity|].
  apply not_elem_of_cons in Hn as [Hc Hn].
  cbn [app EmbedImagesRenderer.tag_run].
  destruct (Ascii.eqb_spec c ">") as [->|_]; [congruence|].
  rewrite (IH Hn). reflexivity.
Qed.

Lemma closing_tag_matches (close tail : str) :
  close ≠ [] → ">"%char ∉ close → tail = [] ∨ tail = [LF] →
  EmbedImagesRenderer.closing_tag ("</" ++ close ++ ">" ++ tail) = true.
Proof.
  intros Hne Hgt Htail. unfold EmbedImagesRenderer.closing_tag.
  rewrite startswith_app.
  change (drop 2 ("</" ++ close ++ ">" ++ tail)) with (close ++ ">" ++ tail).
  rewrite (tag_run_stops _ _ Hgt).
  destruct close as [|c close]; [congruence|].
  destruct Htail as [->| ->]; reflexivity.
Qed.

Lemma outer_tag_body_unfold (s : str) :
  EmbedImagesRenderer.outer_tag_body s
  = if EmbedImagesRenderer.closing_tag s then Some []
    else match s with
         | [] => None
         | c :: s' =>
             match EmbedImagesRenderer.outer_tag_body s' with
             | Some group => Some (c :: group)
             | None => None
             end
         end.
Proof. destruct s; reflexivity. Qed.

Lemma outer_tag_body_first (inner rest : str) :
  (∀ k, k < length inner →
        EmbedImagesRenderer.closing_tag (drop k (inner ++ rest)) = false) →
  EmbedImagesRenderer.closing_tag rest = true →
  EmbedImagesRenderer.outer_tag_body (inner ++ rest) = Some inner.
Proof.
  intros Hnot Hclose. induction inner as [|c inner IH].
  - cbn [app]. rewrite outer_tag_body_unfold, Hclose. reflexivity.
  - pose proof (Hnot 0 ltac:(cbn; lia)) as H0. cbn [drop app] in H0.
    cbn [app]. rewrite outer_tag_body_unfold, H0, IH; [reflexivity|].
    intros k Hk. apply (Hnot (S k)). cbn. lia.
Qed.

Lemma outer_tag_body_prefix (s group : str) :
  EmbedImagesRenderer.outer_tag_body s = Some group →
  ∃ rest, s = group ++ rest ∧ EmbedImagesRenderer.closing_tag rest = true.
Proof.
  revert group. induction s as [|c s IH]; intros group;
    rewrite outer_tag_body_unfold.
  - destruct (EmbedImagesRenderer.closing_tag []) eqn:E; [|discriminate].
    intros [= <-]. exists []. auto.
  - destruct (EmbedImagesRenderer.closing_tag (c :: s)) eqn:E.
    + intros [= <-]. exists (c :: s). auto.
    + destruct (EmbedImagesRenderer.outer_tag_body s) as [g|]; [|discriminate].
      intros [= <-]. destruct (IH g eq_refl) as (rest & -> & Hrest).
      exists rest. auto.
Qed.

End OuterTag.

(** [_strip_outer_tag] takes the wrapper off a fragment that opens
    with a tag and ends, a final line feed apart, with a closing tag: what
    stands between the two is returned, provided no closing tag that
    reaches the end of the fragment begins inside it. *)
Theorem strip_outer_tag_unwraps (name inner close tail : str) :
  name ≠ [] → ">"%char ∉ name →
  close ≠ [] → ">"%char ∉ close →
  tail = [] ∨ tail = [LF] →
  (∀ k, k < length inner →
        EmbedImagesRenderer.closing_tag
          (drop k (inner ++ "</" ++ close ++ ">" ++ tail)) = false) →
  EmbedImagesRenderer._strip_outer_tag
    ("<" ++ name ++ ">" ++ inner ++ "</" ++ close ++ ">" ++ tail)
  = inner.
Proof.
  intros Hname Hngt Hclose Hcgt Htail Hfirst.
  unfold EmbedImagesRenderer._strip_outer_tag, EmbedImagesRenderer.outer_tag.
  change ("<" ++ name ++ ">" ++ inner ++ "</" ++ close ++ ">" ++ tail)
    with ("<"%char :: (name ++ ">" ++ (inner ++ "</" ++ close ++ ">" ++ tail))).
  cbv beta iota. rewrite Ascii.eqb_refl, (tag_run_stops _ _ Hngt).
  destruct name as [|c name]; [congruence|].
  change (">" ++ inner ++ "</" ++ close ++ ">" ++ tail)
    with (">"%char :: (inner ++ "</" ++ close ++ ">" ++ tail)).
  cbv beta iota. rewrite Ascii.eqb_refl.
  rewrite (outer_tag_body_first _ _ Hfirst); [reflexivity|].
  apply closing_tag_matches; assumption.
Qed.

Lemma strip_outer_tag_unwraps_witness :
  EmbedImagesRenderer._strip_outer_tag
    ("<" ++ "body" ++ ">" ++ "<p>x</p>" ++ "</" ++ "body" ++ ">" ++ [LF])
  = ("<p>x</p>" : str).
Proof.
  apply (strip_outer_tag_unwraps "body" "<p>x</p>" "body" [LF]).
  - discriminate.
  - intros H; repeat (apply elem_of_cons in H as [H|H]; [discriminate H|]);
      inversion H.
  - discriminate.
  - intros H; repeat (apply elem_of_cons in H as [H|H]; [discriminate H|]);
      inversion H.
  - right. reflexivity.
  - intros k Hk. change (length (list_ascii_of_string "<p>x</p>")) with 8 in Hk.
    do 8 (destruct k as [|k]; [vm_compute; reflexivity|]). lia.
Defined.

(** [_strip_outer_tag] never adds anything: its result is a run of
    consecutive characters of the fragment, the whole fragment when the
    pattern does not match. *)
Theorem strip_outer_tag_part (html : str) :
  ∃ before after : str,
    html = before ++ EmbedImagesRenderer._strip_outer_tag html ++ after.
Proof.
  unfold EmbedImagesRenderer._strip_outer_tag.
  destruct (EmbedImagesRenderer.outer_tag html) as [group|] eqn:E.
  2:{ exists [], []. rewrite app_nil_r. reflexivity. }
  revert E. unfold EmbedImagesRenderer.outer_tag.
  destruct html as [|c s]; [discriminate|].
  destruct (Ascii.eqb c "<"); [|discriminate].
  assert (∀ t : str, t = (EmbedImagesRenderer.tag_run t).1
                         ++ (EmbedImagesRenderer.tag_run t).2) as Hrun.
  { induction t as [|x t IH]; [reflexivity|]. cbn.
    destruct (Ascii.eqb x ">"); [reflexivity|].
    destruct (EmbedImagesRenderer.tag_run t) as [run rest]. cbn in *. congruence. }
  pose proof (Hrun s) as Hs.
  destruct (EmbedImagesRenderer.tag_run s) as [[|n name] [|c' rest]];
    try discriminate.
  destruct (Ascii.eqb c' ">"); [|discriminate].
  intros Hbody. apply outer_tag_body_prefix in Hbody as (after & -> & _).
  cbn [fst snd] in Hs. exists (c :: (n :: name) ++ [c']), after.
  rewrite Hs. cbn [app]. rewrite <- !app_assoc. reflexivity.
Qed.
